(** * Media-backed record lifecycle of the social-content client

    A shallow embedding of the Appwrite API module of the repository
    (the rethrowing variant of [createPost], [updatePost], [deleteFile],
    [likePost], [savePost], [followUser], [unfollowUser]) and of the like
    toggle of the [PostStats] component, together with the properties the
    specification states about them.

    The two remote services (blob storage and document database) are not part
    of the repository.  They are modelled as an explicit world: the set of
    stored file ids, one list of documents per collection, and a script of
    responses that says, call by call, whether the service resolves, resolves
    with a falsy value, or rejects. *)

From Stdlib Require Import Ascii.
From stdpp Require Import gmap strings list fin_maps pretty.

Open Scope string_scope.
Open Scope list_scope.

(** ** JavaScript strings and truthiness *)

Module Js.

(** [s.replace(/ /g, empty)]: every U+0020 is dropped, nothing else. *)
Fixpoint replace_spaces (s : string) : string :=
  match s with
  | EmptyString => EmptyString
  | String c r =>
      if Ascii.eqb c " "%char then replace_spaces r else String c (replace_spaces r)
  end.

(** [s.split(",")]: the pieces between commas; always at least one piece. *)
Fixpoint split_comma (s : string) : list string :=
  match s with
  | EmptyString => [EmptyString]
  | String c r =>
      if Ascii.eqb c ","%char then EmptyString :: split_comma r
      else match split_comma r with
           | piece :: pieces => String c piece :: pieces
           | [] => [String c EmptyString]
           end
  end.

(** [pieces.join(",")], the inverse used to characterise [split_comma]. *)
Fixpoint join_comma (pieces : list string) : string :=
  match pieces with
  | [] => EmptyString
  | [p] => p
  | p :: rest => p +:+ String ","%char (join_comma rest)
  end.

(** Truthiness of a string value: only the empty string is falsy. *)
Definition truthy (s : string) : bool :=
  match s with EmptyString => false | String _ _ => true end.

(** Truthiness of a possibly undefined string. *)
Definition truthy_opt (o : option string) : bool :=
  match o with Some s => truthy s | None => false end.

(** [a || b] on possibly undefined strings with a string default. *)
Definition or_else (o : option string) (d : string) : string :=
  match o with Some s => if truthy s then s else d | None => d end.

(** [a ?? b]: only [undefined]/[null] select the default. *)
Definition nullish (o : option string) (d : string) : string :=
  match o with Some s => s | None => d end.

(** [xs.includes(x)] *)
Definition includes (xs : list string) (x : string) : bool :=
  bool_decide (x ∈ xs).

(** The characters of a string, in order. *)
Fixpoint chars (s : string) : list ascii :=
  match s with
  | EmptyString => []
  | String c r => c :: chars r
  end.

End Js.

(** ** Documents, errors and the world *)

(** A field value of a stored document. *)
Inductive value :=
| VStr (s : string)
| VArr (xs : list string).

#[global] Instance value_eq_dec : EqDecision value.
Proof. solve_decision. Defined.

(** [Models.Document]: the [$id] and the attributes. *)
Record Doc := { doc_id : string; doc_data : gmap string value }.

#[global] Instance Doc_eq_dec : EqDecision Doc.
Proof. solve_decision. Defined.

(** The browser [File] handed to the upload. *)
Record File := { file_name : string }.

(** [Models.File] as returned by [storage.createFile]. *)
Record UploadedFile := { uploaded_id : string; uploaded_name : string }.

(** Modelled from the spec: the configuration module ([appwriteConfig]) is
    not among the sources; the collections it names are the users, the
    records (posts), the save edges and the follow edges. *)
Inductive Collection :=
| postCollectionId
| savesCollectionId
| followersCollectionId
| userCollectionId.

#[global] Instance Collection_eq_dec : EqDecision Collection.
Proof. solve_decision. Defined.

(** What can be thrown: an [Error] made by the module itself, a rejection of
    the SDK (with its HTTP-like code), or the [TypeError] of reading a
    property of [undefined]. *)
Inductive error :=
| JsError (msg : string)
| AppwriteException (code : nat) (msg : string)
| TypeError (msg : string).

#[global] Instance error_eq_dec : EqDecision error.
Proof. solve_decision. Defined.

(** One scripted answer of the remote service. *)
Inductive response :=
| Resolves
| ResolvesFalsy
| Rejects (e : error).

#[global] Instance response_eq_dec : EqDecision response.
Proof. solve_decision. Defined.

Definition is_rejection (r : response) : bool :=
  match r with Rejects _ => true | _ => false end.

(** [Query.equal(attribute, value)], the only query the modelled functions
    build. *)
Inductive Query := Query_equal (attribute : string) (v : string).

(** The SDK calls, as they reach the services. *)
Inductive call :=
| call_createFile (fileId : string)
| call_getFilePreview (fileId : string)
| call_deleteFile (fileId : string)
| call_createDocument (c : Collection) (documentId : string)
| call_updateDocument (c : Collection) (documentId : string)
| call_deleteDocument (c : Collection) (documentId : string)
| call_listDocuments (c : Collection) (queries : list Query).

Inductive level := log_level | warn_level | error_level.

Inductive event :=
| Sdk (c : call)
| Console (l : level) (msg : string).

Definition is_storage_call (ev : event) : bool :=
  match ev with
  | Sdk (call_createFile _) | Sdk (call_getFilePreview _)
  | Sdk (call_deleteFile _) => true
  | _ => false
  end.

(** The asset-store calls of a trace, in order. *)
Definition storage_calls (t : list event) : list event :=
  List.filter is_storage_call t.

Record World := {
  files : gset string;        (* ids of the blobs in the bucket *)
  posts : list Doc;
  saves : list Doc;
  followers : list Doc;
  users : list Doc;
  next_id : nat;              (* supply of [ID.unique()] *)
  backend : list response;    (* scripted answers, consumed one per call *)
  trace : list event;         (* what happened so far, oldest first *)
}.

Definition set_files (f : gset string → gset string) (w : World) : World :=
  {| files := f (files w); posts := posts w; saves := saves w;
     followers := followers w; users := users w; next_id := next_id w;
     backend := backend w; trace := trace w |}.

Definition collection (c : Collection) (w : World) : list Doc :=
  match c with
  | postCollectionId => posts w
  | savesCollectionId => saves w
  | followersCollectionId => followers w
  | userCollectionId => users w
  end.

Definition set_posts (ds : list Doc) (w : World) : World :=
  {| files := files w; posts := ds; saves := saves w;
     followers := followers w; users := users w; next_id := next_id w;
     backend := backend w; trace := trace w |}.

Definition set_saves (ds : list Doc) (w : World) : World :=
  {| files := files w; posts := posts w; saves := ds;
     followers := followers w; users := users w; next_id := next_id w;
     backend := backend w; trace := trace w |}.

Definition set_followers (ds : list Doc) (w : World) : World :=
  {| files := files w; posts := posts w; saves := saves w;
     followers := ds; users := users w; next_id := next_id w;
     backend := backend w; trace := trace w |}.

Definition set_users (ds : list Doc) (w : World) : World :=
  {| files := files w; posts := posts w; saves := saves w;
     followers := followers w; users := ds; next_id := next_id w;
     backend := backend w; trace := trace w |}.

Definition set_collection (c : Collection) (f : list Doc → list Doc)
    (w : World) : World :=
  match c with
  | postCollectionId => set_posts (f (posts w)) w
  | savesCollectionId => set_saves (f (saves w)) w
  | followersCollectionId => set_followers (f (followers w)) w
  | userCollectionId => set_users (f (users w)) w
  end.

Definition set_next_id (n : nat) (w : World) : World :=
  {| files := files w; posts := posts w; saves := saves w;
     followers := followers w; users := users w; next_id := n;
     backend := backend w; trace := trace w |}.

Definition set_backend (b : list response) (w : World) : World :=
  {| files := files w; posts := posts w; saves := saves w;
     followers := followers w; users := users w; next_id := next_id w;
     backend := b; trace := trace w |}.

Definition push_event (ev : event) (w : World) : World :=
  {| files := files w; posts := posts w; saves := saves w;
     followers := followers w; users := users w; next_id := next_id w;
     backend := backend w; trace := trace w ++ [ev] |}.

(** ** Async functions as state-and-exception computations *)

Inductive completion (A : Type) :=
| Returned (a : A)
| Thrown (e : error).
Arguments Returned {A} a.
Arguments Thrown {A} e.

Definition M (A : Type) : Type := World → completion A * World.

Definition ret {A} (a : A) : M A := λ w, (Returned a, w).

Definition bind {A B} (m : M A) (k : A → M B) : M B :=
  λ w, match m w with
       | (Returned a, w') => k a w'
       | (Thrown e, w') => (Thrown e, w')
       end.

Definition throw {A} (e : error) : M A := λ w, (Thrown e, w).

(** [try { m } catch (error) { h error }] *)
Definition try_catch {A} (m : M A) (h : error → M A) : M A :=
  λ w, match m w with
       | (Returned a, w') => (Returned a, w')
       | (Thrown e, w') => h e w'
       end.

Definition modify (f : World → World) : M unit := λ w, (Returned tt, f w).

#[global] Instance M_ret : MRet M := @ret.
#[global] Instance M_bind : MBind M := λ A B k m, bind m k.

Definition emit (ev : event) : M unit := modify (push_event ev).

Definition console_log (msg : string) : M unit := emit (Console log_level msg).
Definition console_warn (msg : string) : M unit := emit (Console warn_level msg).
Definition console_error (msg : string) : M unit :=
  emit (Console error_level msg).

(** The next scripted answer; an exhausted script means the service answers
    normally. *)
Definition next_response : M response :=
  λ w, match backend w with
       | [] => (Returned Resolves, w)
       | r :: rest => (Returned r, set_backend rest w)
       end.

(** [ID.unique()] *)
Definition unique_id (n : nat) : string := "id" +:+ pretty n.

Definition ID_unique : M string :=
  λ w, (Returned (unique_id (next_id w)), set_next_id (S (next_id w)) w).

Definition get_world : M World := λ w, (Returned w, w).

(** The outcome and the final world of running a computation. *)
Definition outcome {A} (m : M A) (w : World) : completion A := (m w).1.
Definition final {A} (m : M A) (w : World) : World := (m w).2.

(** ** The Appwrite SDK, as far as the module uses it

    The SDK is a library outside the repository.  Each call records itself
    in the trace and takes the next scripted answer: a rejection throws and
    changes nothing, a falsy resolution returns nothing and changes nothing,
    a normal resolution has the effect of the call on the stores. *)

Record URL := { href : string }.

Record DocumentList := { total : nat; documents : list Doc }.

Module Sdk.

(** The preview address with the transform the module always asks for:
    width 2000, height 2000, gravity "top", quality 100. *)
Definition preview_href (fileId : string) : string :=
  "/storage/files/" +:+ fileId
    +:+ "/preview?width=2000&height=2000&gravity=top&quality=100".

(** [storage.createFile(bucket, fileId, file)]; an [undefined] file is
    refused before anything is sent. *)
Definition storage_createFile (fileId : string) (file : option File)
    : M (option UploadedFile) :=
  emit (Sdk (call_createFile fileId));;
  match file with
  | None => throw (AppwriteException 0 "Missing required parameter: file")
  | Some f =>
      r ← next_response;
      match r with
      | Rejects e => throw e
      | ResolvesFalsy => mret None
      | Resolves =>
          modify (set_files (λ fs, fs ∪ {[fileId]}));;
          mret (Some {| uploaded_id := fileId; uploaded_name := file_name f |})
      end
  end.

(** [storage.getFilePreview(bucket, fileId, 2000, 2000, "top", 100)] *)
Definition storage_getFilePreview (fileId : string) : M (option URL) :=
  emit (Sdk (call_getFilePreview fileId));;
  r ← next_response;
  match r with
  | Rejects e => throw e
  | ResolvesFalsy => mret None
  | Resolves => mret (Some {| href := preview_href fileId |})
  end.

(** [storage.deleteFile(bucket, fileId)]; the promise carries no value, so
    any resolution counts.  Whether the service rejects the deletion of an
    id it does not hold is the script's choice. *)
Definition storage_deleteFile (fileId : string) : M unit :=
  emit (Sdk (call_deleteFile fileId));;
  r ← next_response;
  match r with
  | Rejects e => throw e
  | _ => modify (set_files (λ fs, fs ∖ {[fileId]}))
  end.

Definition query_holds (d : Doc) (q : Query) : bool :=
  match q with
  | Query_equal a v => bool_decide (doc_data d !! a = Some (VStr v))
  end.

(** The documents of a list that satisfy every query, in stored order. *)
Definition matching (queries : list Query) (ds : list Doc) : list Doc :=
  List.filter (λ d, forallb (query_holds d) queries) ds.

Definition has_id (documentId : string) (d : Doc) : bool :=
  bool_decide (doc_id d = documentId).

(** Partial update of one stored document: the given attributes replace
    the old ones, the others stay. *)
Definition patch (data : gmap string value) (d : Doc) : Doc :=
  {| doc_id := doc_id d; doc_data := data ∪ doc_data d |}.

Definition patch_id (documentId : string) (data : gmap string value)
    (d : Doc) : Doc :=
  if has_id documentId d then patch data d else d.

(** [databases.listDocuments(db, collection, queries)] *)
Definition databases_listDocuments (c : Collection) (queries : list Query)
    : M (option DocumentList) :=
  emit (Sdk (call_listDocuments c queries));;
  r ← next_response;
  match r with
  | Rejects e => throw e
  | ResolvesFalsy => mret None
  | Resolves =>
      w ← get_world;
      let found := matching queries (collection c w) in
      mret (Some {| total := length found; documents := found |})
  end.

(** [databases.createDocument(db, collection, documentId, data)] *)
Definition databases_createDocument (c : Collection) (documentId : string)
    (data : gmap string value) : M (option Doc) :=
  emit (Sdk (call_createDocument c documentId));;
  r ← next_response;
  match r with
  | Rejects e => throw e
  | ResolvesFalsy => mret None
  | Resolves =>
      let d := {| doc_id := documentId; doc_data := data |} in
      modify (set_collection c (λ ds, ds ++ [d]));;
      mret (Some d)
  end.

(** [databases.updateDocument(db, collection, documentId, data)]; there is
    no document to return when the id is unknown. *)
Definition databases_updateDocument (c : Collection) (documentId : string)
    (data : gmap string value) : M (option Doc) :=
  emit (Sdk (call_updateDocument c documentId));;
  r ← next_response;
  match r with
  | Rejects e => throw e
  | ResolvesFalsy => mret None
  | Resolves =>
      w ← get_world;
      match List.find (has_id documentId) (collection c w) with
      | None => throw (AppwriteException 404 "document_not_found")
      | Some old =>
          modify (set_collection c (map (patch_id documentId data)));;
          mret (Some (patch data old))
      end
  end.

(** [databases.deleteDocument(db, collection, documentId)] *)
Definition databases_deleteDocument (c : Collection) (documentId : string)
    : M unit :=
  emit (Sdk (call_deleteDocument c documentId));;
  r ← next_response;
  match r with
  | Rejects e => throw e
  | _ =>
      modify (set_collection c
                (List.filter (λ d, negb (has_id documentId d))))
  end.

End Sdk.

(** An object literal: attributes whose value is [undefined] are not sent. *)
Definition js_object (fields : list (string * option value))
    : gmap string value :=
  list_to_map (omap (λ kv, (λ v, (kv.1, v)) <$> kv.2) fields).

(** ** The request shapes *)

(** The type declarations of the requests are not among the sources.  The
    fields are the ones the functions read; a field is optional where the
    code guards it with [?.], [??] or [||]. *)

Module INewPost.
(** Modelled from the spec: the request of CREATE. *)
Record t := {
  userId : string;
  caption : string;
  file : list File;
  location : option string;
  tags : option string;
}.
End INewPost.

Module IUpdatePost.
(** Modelled from the spec: the request of UPDATE; [imageId] and [imageUrl]
    name the asset the record has now. *)
Record t := {
  postId : string;
  caption : option string;
  imageId : option string;
  imageUrl : option string;
  file : list File;
  location : option string;
  tags : option string;
}.
End IUpdatePost.

(** The plain result objects [{ status, message }]. *)
Record StatusResult := { status : string; message : option string }.

(** ** The API module *)

(** The tag expression of [createPost] and [updatePost]:
    [post.tags?.replace(/ /g, empty).split(",") || []].  An array is always
    truthy, so the [||] default is taken only when the field is absent. *)
Definition parse_tags (tags : option string) : list string :=
  match tags with
  | None => []
  | Some s => Js.split_comma (Js.replace_spaces s)
  end.

Definition uploadFile (file : option File) : M (option UploadedFile) :=
  try_catch
    (fileId ← ID_unique;
     Sdk.storage_createFile fileId file)
    (λ error,
      console_error "Error in uploadFile:";;
      throw error).

Definition getFilePreview (fileId : string) : M (option string) :=
  try_catch
    (fileUrl ← Sdk.storage_getFilePreview fileId;
     match fileUrl with
     | None =>
         console_error ("getFilePreview returned null for fileId: " +:+ fileId);;
         mret None
     | Some fileUrl => mret (Some (href fileUrl))
     end)
    (λ error,
      console_error ("Error getting file preview for fileId: " +:+ fileId);;
      mret None).

Definition deleteFile (fileId : string) : M StatusResult :=
  try_catch
    (Sdk.storage_deleteFile fileId;;
     mret {| status := "ok"; message := None |})
    (λ error,
      console_error "Error in deleteFile:";;
      throw error).

Definition createPost (post : INewPost.t) : M Doc :=
  try_catch
    (uploadedFile ← uploadFile (head (INewPost.file post));
     match uploadedFile with
     | None => throw (JsError "File upload failed.")
     | Some uploadedFile =>
         fileUrl ← getFilePreview (uploaded_id uploadedFile);
         match fileUrl with
         | Some (String _ _ as fileUrl) =>
             let tags := parse_tags (INewPost.tags post) in
             documentId ← ID_unique;
             newPost ← Sdk.databases_createDocument postCollectionId documentId
               (js_object
                  [("creator", Some (VStr (INewPost.userId post)));
                   ("caption", Some (VStr (INewPost.caption post)));
                   ("imageUrl", Some (VStr fileUrl));
                   ("imageId", Some (VStr (uploaded_id uploadedFile)));
                   ("location", VStr <$> INewPost.location post);
                   ("tags", Some (VArr tags))]);
             match newPost with
             | None =>
                 deleteFile (uploaded_id uploadedFile);;
                 throw (JsError "Failed to create post document.")
             | Some newPost => mret newPost
             end
         | _ =>
             deleteFile (uploaded_id uploadedFile);;
             throw (JsError "Failed to get file preview URL.")
         end
     end)
    (λ error,
      console_error "Error in createPost:";;
      throw error).

(** The attributes [updatePost] sends, given the image it settled on
    (address first, id second). *)
Definition post_update_data (post : IUpdatePost.t) (image : string * string)
    : gmap string value :=
  js_object
    [("caption",
      Some (VStr (Js.nullish (IUpdatePost.caption post) "No caption")));
     ("imageUrl", Some (VStr image.1));
     ("imageId", Some (VStr image.2));
     ("location",
      Some (VStr (Js.nullish (IUpdatePost.location post) "Unknown location")));
     ("tags", Some (VArr (parse_tags (IUpdatePost.tags post))))].

Definition updatePost (post : IUpdatePost.t) : M Doc :=
  let hasFileToUpdate :=
    match IUpdatePost.file post with [] => false | _ :: _ => true end in
  try_catch
    (let image :=
       (Js.or_else (IUpdatePost.imageUrl post) EmptyString,
        Js.or_else (IUpdatePost.imageId post) EmptyString) in
     image ←
       (if hasFileToUpdate then
          uploadedFile ← uploadFile (head (IUpdatePost.file post));
          match uploadedFile with
          | None => throw (JsError "Failed to upload new file for post update.")
          | Some uploadedFile =>
              fileUrl ← getFilePreview (uploaded_id uploadedFile);
              match fileUrl with
              | Some (String _ _ as fileUrl) =>
                  mret (fileUrl, uploaded_id uploadedFile)
              | _ =>
                  deleteFile (uploaded_id uploadedFile);;
                  throw (JsError "Failed to generate new file preview URL.")
              end
          end
        else mret image);
     updatedPost ←
       Sdk.databases_updateDocument postCollectionId (IUpdatePost.postId post)
         (post_update_data post image);
     match updatedPost with
     | None =>
         (if hasFileToUpdate && Js.truthy image.2
          then deleteFile image.2;; mret tt
          else mret tt);;
         throw (JsError "Failed to update post document.")
     | Some updatedPost =>
         (match IUpdatePost.imageId post with
          | Some (String _ _ as oldId) =>
              if hasFileToUpdate && negb (bool_decide (oldId = image.2))
              then
                try_catch
                  (deleteFile oldId;; mret tt)
                  (λ oldFileDeleteError,
                    console_warn ("Failed to delete old file with ID " +:+ oldId))
              else mret tt
          | _ => mret tt
          end);;
         mret updatedPost
     end)
    (λ error,
      console_error
        ("Error while updating post with ID: " +:+ IUpdatePost.postId post);;
      throw error).

Definition likePost (postId : string) (likesArray : list string) : M Doc :=
  try_catch
    (updatedPost ←
       Sdk.databases_updateDocument postCollectionId postId
         (js_object [("likes", Some (VArr likesArray))]);
     match updatedPost with
     | None => throw (JsError "Failed to update post likes.")
     | Some updatedPost => mret updatedPost
     end)
    (λ error,
      console_error ("Error in likePost for post ID: " +:+ postId);;
      throw error).

(** [list.total] and [list.documents[0]] on what [listDocuments] gave back;
    reading a property of [undefined] throws.  The modelled service reports
    as [total] the number of documents it returns, so behind the test
    [total > 0] the first document is always there. *)
Definition read_list (l : option DocumentList) : M DocumentList :=
  match l with
  | None =>
      throw (TypeError "Cannot read properties of undefined (reading 'total')")
  | Some l => mret l
  end.

Definition first_document (l : DocumentList) : M Doc :=
  match documents l with
  | d :: _ => mret d
  | [] => throw (TypeError "documents[0] is undefined")
  end.

Definition savePost (userId postId : string) : M Doc :=
  try_catch
    (existingSaves ←
       Sdk.databases_listDocuments savesCollectionId
         [Query_equal "user" userId; Query_equal "post" postId];
     existingSaves ← read_list existingSaves;
     if (0 <? total existingSaves)%nat then
       console_warn
         ("Post " +:+ postId +:+ " is already saved by user " +:+ userId +:+ ".");;
       first_document existingSaves
     else
       documentId ← ID_unique;
       newSave ←
         Sdk.databases_createDocument savesCollectionId documentId
           (js_object
              [("user", Some (VStr userId)); ("post", Some (VStr postId))]);
       match newSave with
       | None => throw (JsError "Failed to create save document.")
       | Some newSave => mret newSave
       end)
    (λ error,
      console_error
        ("Error in savePost for user " +:+ userId +:+ " and post " +:+ postId);;
      throw error).

Definition followUser (followerId followingId : string) : M Doc :=
  try_catch
    (existingFollow ←
       Sdk.databases_listDocuments followersCollectionId
         [Query_equal "followerId" followerId;
          Query_equal "followingId" followingId];
     existingFollow ← read_list existingFollow;
     if (0 <? total existingFollow)%nat then
       console_warn
         ("User " +:+ followerId +:+ " is already following user "
            +:+ followingId +:+ ".");;
       first_document existingFollow
     else
       documentId ← ID_unique;
       newFollower ←
         Sdk.databases_createDocument followersCollectionId documentId
           (js_object
              [("followerId", Some (VStr followerId));
               ("followingId", Some (VStr followingId))]);
       match newFollower with
       | None => throw (JsError "Failed to create follow document.")
       | Some newFollower => mret newFollower
       end)
    (λ error,
      console_error
        ("Error in followUser: follower " +:+ followerId +:+ ", following "
           +:+ followingId);;
      throw error).

Definition unfollowUser (followerId followingId : string) : M StatusResult :=
  try_catch
    (followers ←
       Sdk.databases_listDocuments followersCollectionId
         [Query_equal "followerId" followerId;
          Query_equal "followingId" followingId];
     followers ← read_list followers;
     (if (0 <? total followers)%nat then
        first ← first_document followers;
        let followerDocId := doc_id first in
        Sdk.databases_deleteDocument followersCollectionId followerDocId;;
        console_log
          ("Successfully unfollowed user " +:+ followingId +:+ " by user "
             +:+ followerId +:+ ".")
      else
        console_warn
          ("No follow relationship found between user " +:+ followerId
             +:+ " and user " +:+ followingId +:+ " to unfollow."));;
     mret {| status := "Ok"; message := Some "Unfollow process completed." |})
    (λ error,
      console_error
        ("Error in unfollowUser: follower " +:+ followerId +:+ ", following "
           +:+ followingId);;
      throw error).

(** ** The like toggle of the post statistics component *)

(** [likes.includes(userId) ? likes.filter(id => id !== userId)
                            : [...likes, userId]] *)
Definition updatedLikes (likes : list string) (userId : string) : list string :=
  if Js.includes likes userId
  then List.filter (λ id, negb (bool_decide (id = userId))) likes
  else likes ++ [userId].

(** [handleLikePost]: the new local state, and the mutation that sends the
    whole array.  Modelled from the spec: the mutation hook is not among the
    sources; it hands the post id and the array to [likePost], and a failed
    mutation is not thrown back at the click handler. *)
Definition handleLikePost (postId : string) (likes : list string)
    (userId : string) : M (list string) :=
  let updated := updatedLikes likes userId in
  try_catch (likePost postId updated;; mret updated) (λ _, mret updated).

(** ** Reading the script *)

(** The answer the service will give to the [i]-th call from now.  Every SDK
    call takes one answer, so for [createPost] the answers 0, 1 and 2 are
    those to the upload, to the preview and to whatever comes third (the
    [createDocument], or the compensating delete when the preview failed);
    [savePost] and [followUser] ask for the list first and create second;
    [unfollowUser] lists, then deletes. *)
Definition upcoming (i : nat) (w : World) : response :=
  nth i (backend w) Resolves.

(** A pristine world and the fixtures used by the examples. *)
Definition empty_world : World :=
  {| files := ∅; posts := []; saves := []; followers := []; users := [];
     next_id := 0; backend := []; trace := [] |}.

Definition with_script (b : list response) (w : World) : World :=
  set_backend b w.

Definition photo : File := {| file_name := "photo.png" |}.

Definition new_post : INewPost.t :=
  {| INewPost.userId := "u1"; INewPost.caption := "sunset";
     INewPost.file := [photo]; INewPost.location := Some "Goa";
     INewPost.tags := Some "a, b ,c" |}.

Definition outage : error := AppwriteException 503 "general_server_error".
Definition not_found : error := AppwriteException 404 "storage_file_not_found".

(** The queries and the documents of the two relationship collections. *)
Definition follow_queries (followerId followingId : string) : list Query :=
  [Query_equal "followerId" followerId; Query_equal "followingId" followingId].

Definition save_queries (userId postId : string) : list Query :=
  [Query_equal "user" userId; Query_equal "post" postId].

Definition follow_edge (documentId followerId followingId : string) : Doc :=
  {| doc_id := documentId;
     doc_data :=
       js_object
         [("followerId", Some (VStr followerId));
          ("followingId", Some (VStr followingId))] |}.

Definition save_edge (documentId userId postId : string) : Doc :=
  {| doc_id := documentId;
     doc_data :=
       js_object [("user", Some (VStr userId)); ("post", Some (VStr postId))] |}.

#[global] Arguments Sdk.matching : simpl never.
#[global] Arguments Sdk.patch : simpl never.
#[global] Arguments Sdk.patch_id : simpl never.
#[global] Arguments Sdk.preview_href : simpl never.
#[global] Arguments js_object : simpl never.
#[global] Arguments unique_id : simpl never.
#[global] Arguments parse_tags : simpl never.
#[global] Arguments post_update_data : simpl never.

Definition two_follow_edges : World :=
  set_followers [follow_edge "e1" "a" "b"; follow_edge "e2" "a" "b"]
    empty_world.

(** A stored post with its asset, and requests against it. *)
Definition stored_post : Doc :=
  {| doc_id := "p1";
     doc_data :=
       js_object
         [("creator", Some (VStr "u1"));
          ("caption", Some (VStr "sunset"));
          ("imageUrl", Some (VStr "/storage/files/old/preview"));
          ("imageId", Some (VStr "old"));
          ("location", Some (VStr "Goa"));
          ("tags", Some (VArr ["a"; "b"]));
          ("likes", Some (VArr ["u1"; "u2"]))] |}.

Definition one_post : World :=
  set_files (λ _, {["old"]}) (set_posts [stored_post] empty_world).

(** Tags only: caption, location and file are left out. *)
Definition caption_only : IUpdatePost.t :=
  {| IUpdatePost.postId := "p1"; IUpdatePost.caption := None;
     IUpdatePost.imageId := Some "old";
     IUpdatePost.imageUrl := Some "/storage/files/old/preview";
     IUpdatePost.file := []; IUpdatePost.location := None;
     IUpdatePost.tags := Some "x,y" |}.

Definition with_new_file : IUpdatePost.t :=
  {| IUpdatePost.postId := "p1"; IUpdatePost.caption := Some "dawn";
     IUpdatePost.imageId := Some "old";
     IUpdatePost.imageUrl := Some "/storage/files/old/preview";
     IUpdatePost.file := [photo]; IUpdatePost.location := Some "Goa";
     IUpdatePost.tags := Some "x,y" |}.

Definition old_delete_fails : World :=
  with_script [Resolves; Resolves; Resolves; Rejects outage] one_post.

(** The number of service calls an update makes before its document is
    written: the update itself, preceded by upload and preview when a file
    is supplied. *)
Definition update_calls (post : IUpdatePost.t) : nat :=
  match IUpdatePost.file post with [] => 1 | _ :: _ => 3 end.

(** ** The rest of the API module *)

(** The reads of the SDK the claims did not need.  The trace has no entry
    for them. *)
Module SdkRead.

(** [databases.getDocument(db, collection, documentId)]; an unknown id is
    answered with a not-found rejection, there being no document to return. *)
Definition databases_getDocument (c : Collection) (documentId : string)
    : M (option Doc) :=
  r ← next_response;
  match r with
  | Rejects e => throw e
  | ResolvesFalsy => mret None
  | Resolves =>
      w ← get_world;
      match List.find (Sdk.has_id documentId) (collection c w) with
      | None => throw (AppwriteException 404 "document_not_found")
      | Some d => mret (Some d)
      end
  end.

End SdkRead.

Definition getPostById (postId : option string) : M (option Doc) :=
  match postId with
  | Some (String _ _ as postId) =>
      try_catch
        (SdkRead.databases_getDocument postCollectionId postId)
        (λ error,
          console_error ("Error while fetching post with ID: " +:+ postId);;
          throw error)
  | _ => throw (JsError "Post ID is required to fetch.")
  end.

Definition deletePost (postId imageId : option string) : M StatusResult :=
  match postId with
  | Some (String _ _ as postId) =>
      try_catch
        (Sdk.databases_deleteDocument postCollectionId postId;;
         console_log
           ("Successfully deleted post document with ID: " +:+ postId);;
         (match imageId with
          | Some (String _ _ as imageId) =>
              try_catch (deleteFile imageId;; mret tt)
                (λ deleteFileError, mret tt)
          | _ => mret tt
          end);;
         mret {| status := "Ok";
                 message :=
                   Some "Post and associated file (if any) deleted successfully." |})
        (λ error,
          console_error
            ("Error while deleting post document with ID: " +:+ postId);;
          throw error)
  | _ => throw (JsError "Post ID is required to delete")
  end.

Definition deleteSavedPost (savedRecordId : string) : M StatusResult :=
  try_catch
    (Sdk.databases_deleteDocument savesCollectionId savedRecordId;;
     console_log
       ("Successfully deleted saved post record with ID: " +:+ savedRecordId);;
     mret {| status := "Ok";
             message := Some "Saved post deleted successfully." |})
    (λ error,
      console_error
        ("Error in deleteSavedPost for record ID: " +:+ savedRecordId);;
      throw error).

(** The configuration is modelled with the collection id set, so
    [appwriteConfig.followersCollectionId || empty] is that id. *)
Definition getFollowersCount (userId : string) : M nat :=
  try_catch
    (followers ←
       Sdk.databases_listDocuments followersCollectionId
         [Query_equal "followingId" userId];
     match followers with
     | None => mret 0
     | Some followers => mret (total followers)
     end)
    (λ error,
      console_error ("Error in getFollowersCount for user ID: " +:+ userId);;
      throw error).

(** [getFollowingCount] guards against a configuration without the
    collection id; [configured] says whether the id is set. *)
Definition getFollowingCount (configured : bool) (userId : string) : M nat :=
  try_catch
    (if negb configured then
       console_error "followersCollectionId is not defined in appwriteConfig.";;
       mret 0
     else
       following ←
         Sdk.databases_listDocuments followersCollectionId
           [Query_equal "followerId" userId];
       match following with
       | None => mret 0
       | Some following => mret (total following)
       end)
    (λ error,
      console_error ("Error in getFollowingCount for user ID: " +:+ userId);;
      throw error).

Module IUpdateUser.
(** Modelled from the spec: the request of the profile update; [imageId] and
    [imageUrl] name the avatar the user has now. *)
Record t := {
  userId : string;
  name : string;
  bio : option string;
  imageId : option string;
  imageUrl : option string;
  file : list File;
}.
End IUpdateUser.

(** The attributes [updateUser] sends, given the image it settled on. *)
Definition user_update_data (user : IUpdateUser.t)
    (image : option string * option string) : gmap string value :=
  js_object
    [("name", Some (VStr (IUpdateUser.name user)));
     ("bio", Some (VStr (Js.nullish (IUpdateUser.bio user) EmptyString)));
     ("imageUrl", VStr <$> image.1);
     ("imageId", VStr <$> image.2)].

Definition updateUser (user : IUpdateUser.t) : M Doc :=
  let hasFileToUpdate :=
    match IUpdateUser.file user with [] => false | _ :: _ => true end in
  try_catch
    (let image := (IUpdateUser.imageUrl user, IUpdateUser.imageId user) in
     image ←
       (if hasFileToUpdate then
          uploadedFile ← uploadFile (head (IUpdateUser.file user));
          match uploadedFile with
          | None => throw (JsError "Failed to upload new profile image.")
          | Some uploadedFile =>
              fileUrl ← getFilePreview (uploaded_id uploadedFile);
              match fileUrl with
              | Some (String _ _ as fileUrl) =>
                  mret (Some fileUrl, Some (uploaded_id uploadedFile))
              | _ =>
                  deleteFile (uploaded_id uploadedFile);;
                  throw (JsError "Failed to get new profile image URL.")
              end
          end
        else mret image);
     updatedUser ←
       Sdk.databases_updateDocument userCollectionId (IUpdateUser.userId user)
         (user_update_data user image);
     match updatedUser with
     | None =>
         (match image.2 with
          | Some (String _ _ as newId) =>
              if hasFileToUpdate then deleteFile newId;; mret tt else mret tt
          | _ => mret tt
          end);;
         throw (JsError ("Failed to update user document for ID: "
                           +:+ IUpdateUser.userId user))
     | Some updatedUser =>
         (match IUpdateUser.imageId user with
          | Some (String _ _ as oldId) =>
              if hasFileToUpdate && negb (bool_decide (Some oldId = image.2))
              then
                try_catch
                  (deleteFile oldId;; mret tt)
                  (λ oldFileDeleteError,
                    console_warn
                      ("Failed to delete old profile image with ID " +:+ oldId))
              else mret tt
          | _ => mret tt
          end);;
         mret updatedUser
     end)
    (λ error,
      console_error
        ("Error while updating user with ID: " +:+ IUpdateUser.userId user);;
      throw error).

(** *** The signed-in user *)

(** [Models.Account], as far as the module reads it. *)
Record Account := { account_id : string; account_name : string;
                    account_email : string }.

(** [account.get()]: [session] is the account the current session belongs
    to, if there is a session; without one the service rejects.  The call
    takes a scripted answer like every other. *)
Definition account_get (session : option Account) : M (option Account) :=
  r ← next_response;
  match r with
  | Rejects e => throw e
  | ResolvesFalsy => mret None
  | Resolves =>
      match session with
      | None => throw (AppwriteException 401 "general_unauthorized_scope")
      | Some a => mret (Some a)
      end
  end.

Definition getAccount (session : option Account) : M (option Account) :=
  try_catch
    (account_get session)
    (λ error, console_error "Error in getAccount:";; mret None).

Definition getCurrentUser (session : option Account) : M (option Doc) :=
  try_catch
    (currentAccount ← getAccount session;
     match currentAccount with
     | None => mret None
     | Some currentAccount =>
         currentUser ←
           Sdk.databases_listDocuments userCollectionId
             [Query_equal "accountId" (account_id currentAccount)];
         match currentUser with
         | Some {| documents := d :: _ |} => mret (Some d)
         | _ =>
             console_error
               ("User document not found for account ID: "
                  +:+ account_id currentAccount);;
             mret None
         end
     end)
    (λ error, console_error "Error in getCurrentUser:";; mret None).

Module NewUser.
(** The argument of [saveUserToDB], typed in the source itself. *)
Record t := {
  accountId : string;
  email : string;
  name : string;
  imageUrl : string;
  username : option string;
}.
End NewUser.

Definition user_document (user : NewUser.t) : gmap string value :=
  js_object
    [("accountId", Some (VStr (NewUser.accountId user)));
     ("email", Some (VStr (NewUser.email user)));
     ("name", Some (VStr (NewUser.name user)));
     ("imageUrl", Some (VStr (NewUser.imageUrl user)));
     ("username", VStr <$> NewUser.username user)].

Definition saveUserToDB (user : NewUser.t) : M (option Doc) :=
  try_catch
    (documentId ← ID_unique;
     Sdk.databases_createDocument userCollectionId documentId
       (user_document user))
    (λ error, console_error "Error in saveUserToDB:";; throw error).

(** [checkIsLiked] of the utilities. *)
Definition checkIsLiked (likeList : list string) (userId : string) : bool :=
  Js.includes likeList userId.

(** ** The swallowing variant of the API module

    The second copy of the module in the sources: most failures are written
    to the console and the function then returns [undefined]. *)

(** What [console.log(error)] prints. *)
Definition error_text (e : error) : string :=
  match e with
  | JsError msg => msg
  | AppwriteException _ msg => msg
  | TypeError msg => msg
  end.

Module Legacy.

(** [throw Error]: the constructor itself is thrown. *)
Definition the_Error : error := JsError "Error".

Definition uploadFile (file : option File) : M (option UploadedFile) :=
  try_catch
    (fileId ← ID_unique;
     Sdk.storage_createFile fileId file)
    (λ error, console_log (error_text error);; mret None).

Definition getFilePreview (fileId : string) : M (option string) :=
  try_catch
    (fileUrl ← Sdk.storage_getFilePreview fileId;
     match fileUrl with
     | None =>
         console_error ("getFilePreview returned null for fileId: " +:+ fileId);;
         mret None
     | Some fileUrl => mret (Some (href fileUrl))
     end)
    (λ error,
      console_error ("Error getting file preview for fileId: " +:+ fileId);;
      mret None).

Definition deleteFile (fileId : string) : M (option StatusResult) :=
  try_catch
    (Sdk.storage_deleteFile fileId;;
     mret (Some {| status := "ok"; message := None |}))
    (λ error, console_log (error_text error);; mret None).

Definition createPost (post : INewPost.t) : M (option Doc) :=
  try_catch
    (uploadedFile ← uploadFile (head (INewPost.file post));
     match uploadedFile with
     | None => throw the_Error
     | Some uploadedFile =>
         fileUrl ← getFilePreview (uploaded_id uploadedFile);
         match fileUrl with
         | Some (String _ _ as fileUrl) =>
             let tags := parse_tags (INewPost.tags post) in
             documentId ← ID_unique;
             newPost ← Sdk.databases_createDocument postCollectionId documentId
               (js_object
                  [("creator", Some (VStr (INewPost.userId post)));
                   ("caption", Some (VStr (INewPost.caption post)));
                   ("imageUrl", Some (VStr fileUrl));
                   ("imageId", Some (VStr (uploaded_id uploadedFile)));
                   ("location", VStr <$> INewPost.location post);
                   ("tags", Some (VArr tags))]);
             match newPost with
             | None =>
                 deleteFile (uploaded_id uploadedFile);;
                 throw the_Error
             | Some newPost => mret (Some newPost)
             end
         | _ =>
             deleteFile (uploaded_id uploadedFile);;
             throw the_Error
         end
     end)
    (λ error, console_log (error_text error);; mret None).

(** The attributes the swallowing [updatePost] sends: [||], not [??], picks
    the defaults. *)
Definition post_update_data (post : IUpdatePost.t) (image : string * string)
    : gmap string value :=
  js_object
    [("caption",
      Some (VStr (Js.or_else (IUpdatePost.caption post) "No caption")));
     ("imageUrl", Some (VStr image.1));
     ("imageId", Some (VStr image.2));
     ("location",
      Some (VStr (Js.or_else (IUpdatePost.location post) "Unknown location")));
     ("tags", Some (VArr (parse_tags (IUpdatePost.tags post))))].

Definition updatePost (post : IUpdatePost.t) : M Doc :=
  let hasFileToUpdate :=
    match IUpdatePost.file post with [] => false | _ :: _ => true end in
  try_catch
    (let image :=
       (Js.or_else (IUpdatePost.imageUrl post) EmptyString,
        Js.or_else (IUpdatePost.imageId post) EmptyString) in
     image ←
       (if hasFileToUpdate then
          uploadedFile ← uploadFile (head (IUpdatePost.file post));
          match uploadedFile with
          | None => throw (JsError "Failed to upload file")
          | Some uploadedFile =>
              fileUrl ← getFilePreview (uploaded_id uploadedFile);
              match fileUrl with
              | Some (String _ _ as fileUrl) =>
                  mret (fileUrl, uploaded_id uploadedFile)
              | _ =>
                  deleteFile (uploaded_id uploadedFile);;
                  throw (JsError "Failed to generate file preview")
              end
          end
        else mret image);
     updatedPost ←
       Sdk.databases_updateDocument postCollectionId (IUpdatePost.postId post)
         (post_update_data post image);
     match updatedPost with
     | None =>
         (if hasFileToUpdate then deleteFile image.2;; mret tt else mret tt);;
         throw (JsError "Failed to update post")
     | Some updatedPost =>
         (match IUpdatePost.imageId post with
          | Some (String _ _ as oldId) =>
              if hasFileToUpdate then deleteFile oldId;; mret tt else mret tt
          | _ => mret tt
          end);;
         mret updatedPost
     end)
    (λ error, console_error "Error while updating post:";; throw error).

Definition savePost (userId postId : string) : M (option Doc) :=
  try_catch
    (documentId ← ID_unique;
     updatedPost ←
       Sdk.databases_createDocument savesCollectionId documentId
         (js_object
            [("user", Some (VStr userId)); ("post", Some (VStr postId))]);
     match updatedPost with
     | None => throw the_Error
     | Some updatedPost => mret (Some updatedPost)
     end)
    (λ error, console_log (error_text error);; mret None).

Definition followUser (followerId followingId : string) : M (option Doc) :=
  try_catch
    (documentId ← ID_unique;
     Sdk.databases_createDocument followersCollectionId documentId
       (js_object
          [("followerId", Some (VStr followerId));
           ("followingId", Some (VStr followingId))]))
    (λ error, console_log (error_text error);; mret None).

Definition unfollowUser (followerId followingId : string) : M unit :=
  try_catch
    (followers ←
       Sdk.databases_listDocuments followersCollectionId
         [Query_equal "followerId" followerId;
          Query_equal "followingId" followingId];
     followers ← read_list followers;
     if (0 <? total followers)%nat then
       first ← first_document followers;
       Sdk.databases_deleteDocument followersCollectionId (doc_id first)
     else mret tt)
    (λ error, console_log (error_text error)).

End Legacy.

#[global] Arguments user_update_data : simpl never.
#[global] Arguments user_document : simpl never.
#[global] Arguments Legacy.post_update_data : simpl never.

(** More fixtures. *)
Definition alice : Account :=
  {| account_id := "acc1"; account_name := "Alice";
     account_email := "alice@example.org" |}.

Definition alice_user : NewUser.t :=
  {| NewUser.accountId := "acc1"; NewUser.email := "alice@example.org";
     NewUser.name := "Alice"; NewUser.imageUrl := "/avatars/initials?name=Alice";
     NewUser.username := Some "alice" |}.

(** How many follow him, how many he follows: the edges that name the user as
    the followed one, respectively as the follower. *)
Definition followers_of (userId : string) (w : World) : nat :=
  length (Sdk.matching [Query_equal "followingId" userId] (followers w)).

Definition following_of (userId : string) (w : World) : nat :=
  length (Sdk.matching [Query_equal "followerId" userId] (followers w)).

(** An update that names no asset and no tags. *)
Definition tags_only : IUpdatePost.t :=
  {| IUpdatePost.postId := "p1"; IUpdatePost.caption := Some "dawn";
     IUpdatePost.imageId := None; IUpdatePost.imageUrl := None;
     IUpdatePost.file := []; IUpdatePost.location := Some "Goa";
     IUpdatePost.tags := None |}.

(** A stored user with an avatar, and profile updates against it. *)
Definition stored_user : Doc :=
  {| doc_id := "usr1";
     doc_data :=
       js_object
         [("accountId", Some (VStr "acc1"));
          ("name", Some (VStr "Alice"));
          ("bio", Some (VStr "hello"));
          ("imageUrl", Some (VStr "/storage/files/avatar/preview"));
          ("imageId", Some (VStr "avatar"))] |}.

Definition one_user : World :=
  set_files (λ _, {["avatar"]}) (set_users [stored_user] empty_world).

Definition rename_only : IUpdateUser.t :=
  {| IUpdateUser.userId := "usr1"; IUpdateUser.name := "Alice B";
     IUpdateUser.bio := None; IUpdateUser.imageId := None;
     IUpdateUser.imageUrl := None; IUpdateUser.file := [] |}.

Definition new_avatar : IUpdateUser.t :=
  {| IUpdateUser.userId := "usr1"; IUpdateUser.name := "Alice";
     IUpdateUser.bio := Some "hi"; IUpdateUser.imageId := Some "avatar";
     IUpdateUser.imageUrl := Some "/storage/files/avatar/preview";
     IUpdateUser.file := [photo] |}.

(** The number of commas of a string. *)
Definition commas (s : string) : nat :=
  length (List.filter (λ c, Ascii.eqb c ","%char) (Js.chars s)).


(** * Properties *)

(** ** Proof support *)

(** Unfold an API call down to the world and let the script drive it. *)
Ltac run :=
  unfold outcome, final, handleLikePost,
    createPost, updatePost, likePost, savePost, followUser, unfollowUser,
    uploadFile, getFilePreview, deleteFile, read_list, first_document,
    Sdk.storage_createFile, Sdk.storage_getFilePreview,
    Sdk.storage_deleteFile, Sdk.databases_listDocuments,
    Sdk.databases_createDocument, Sdk.databases_updateDocument,
    Sdk.databases_deleteDocument,
    console_log, console_warn, console_error, emit, modify, get_world,
    next_response, ID_unique, try_catch, throw, mbind, M_bind, bind, mret,
    M_ret, ret;
  cbn.

(** Expose the fields of a world and the first answers of its script. *)
Ltac open_world w :=
  let fl := fresh "fl" in let ps := fresh "ps" in let ss := fresh "ss" in
  let fo := fresh "fo" in let us := fresh "us" in let n := fresh "n" in
  let b := fresh "b" in let t := fresh "t" in
  destruct w as [fl ps ss fo us n b t]; unfold upcoming in *; cbn in *.

Lemma storage_calls_app (t1 t2 : list event) :
  storage_calls (t1 ++ t2) = storage_calls t1 ++ storage_calls t2.
Proof. unfold storage_calls. apply List.filter_app. Qed.

Ltac trace_calls :=
  rewrite ?storage_calls_app; cbn; rewrite ?app_nil_r, <- ?app_assoc; cbn;
  try reflexivity.

(** The preview address is never the empty string, so it is truthy. *)
Lemma preview_href_cons (fileId : string) :
  ∃ c s, Sdk.preview_href fileId = String c s.
Proof. unfold Sdk.preview_href. cbn. eauto. Qed.

Ltac truthy_preview fileId :=
  let c := fresh "c" in let s := fresh "s" in let E := fresh "Ehref" in
  destruct (preview_href_cons fileId) as (c & s & E); rewrite E; cbn.

(** ** Asset store adapter *)

(** C9 (as amended).  [deleteFile] has no case for an unknown id: it returns
    [{ status: "ok" }] exactly when the storage service resolves the delete
    call, and rethrows whatever rejection the service gives, leaving the
    bucket as it was. *)
Theorem deleteFile_follows_storage_answer (fileId : string) (w : World) :
  match upcoming 0 w with
  | Rejects e =>
      outcome (deleteFile fileId) w = Thrown e ∧
      files (final (deleteFile fileId) w) = files w
  | _ =>
      outcome (deleteFile fileId) w
        = Returned {| status := "ok"; message := None |} ∧
      files (final (deleteFile fileId) w) = files w ∖ {[fileId]}
  end.
Proof.
  open_world w.
  destruct b as [|[| |e] b]; run; auto.
Qed.

(** C9 (counterexample).  The bucket is empty, the service answers the
    deletion of the unknown id "ghost" with its not-found rejection, and
    [deleteFile] hands that error to the caller instead of reporting ok. *)
Lemma deleteFile_absent_id_rejected :
  ("ghost" ∉ files (with_script [Rejects not_found] empty_world)) ∧
  outcome (deleteFile "ghost") (with_script [Rejects not_found] empty_world)
    = Thrown not_found ∧
  outcome (deleteFile "ghost") (with_script [Rejects not_found] empty_world)
    ≠ Returned {| status := "ok"; message := None |}.
Proof.
  split; [set_solver|]. split; [reflexivity|]. discriminate.
Qed.

(** ** CREATE *)

(** What CREATE does when the preview cannot be computed, whatever the
    storage service then answers to the compensating delete. *)
Lemma createPost_preview_failure_run (post : INewPost.t) (w : World)
    (f : File) (fs : list File) :
  INewPost.file post = f :: fs →
  upcoming 0 w = Resolves →
  upcoming 1 w ≠ Resolves →
  let fileId := unique_id (next_id w) in
  let w' := final (createPost post) w in
  (∃ e, outcome (createPost post) w = Thrown e) ∧
  posts w' = posts w ∧
  storage_calls (trace w') =
    storage_calls (trace w) ++
      [Sdk (call_createFile fileId); Sdk (call_getFilePreview fileId);
       Sdk (call_deleteFile fileId)] ∧
  (is_rejection (upcoming 2 w) = false →
     outcome (createPost post) w
       = Thrown (JsError "Failed to get file preview URL.") ∧
     files w' = (files w ∪ {[fileId]}) ∖ {[fileId]}).
Proof.
  intros Hf H0 H1. open_world w.
  destruct b as [|r0 [|r1 [|r2 b]]]; cbn in *; subst; try done.
  all: destruct r1; try done.
  all: try destruct r2.
  all: run; rewrite Hf; cbn.
  all: repeat split; eauto; try discriminate; trace_calls.
Qed.

(** C2 (as amended).  In every CREATE whose upload succeeds and whose
    preview fails, [createPost] calls [deleteFile] on the asset it has just
    uploaded, creates no record and returns an error.  When the storage
    service carries that deletion out, the error is the preview error and the
    asset is absent from the asset store; when the service rejects the
    deletion, the rejection is the error returned and the asset remains. *)
Theorem createPost_preview_failure_compensates (post : INewPost.t)
    (w : World) (f : File) (fs : list File) :
  INewPost.file post = f :: fs →
  upcoming 0 w = Resolves →
  upcoming 1 w ≠ Resolves →
  let fileId := unique_id (next_id w) in
  let w' := final (createPost post) w in
  (∃ e, outcome (createPost post) w = Thrown e) ∧
  posts w' = posts w ∧
  storage_calls (trace w') =
    storage_calls (trace w) ++
      [Sdk (call_createFile fileId); Sdk (call_getFilePreview fileId);
       Sdk (call_deleteFile fileId)] ∧
  match upcoming 2 w with
  | Rejects e =>
      outcome (createPost post) w = Thrown e ∧
      files w' = files w ∪ {[fileId]}
  | _ =>
      outcome (createPost post) w
        = Thrown (JsError "Failed to get file preview URL.") ∧
      (fileId ∉ files w')
  end.
Proof.
  intros Hf H0 H1. open_world w.
  assert (unique_id n ∉ (fl ∪ {[unique_id n]}) ∖ {[unique_id n]}) as Hgone.
  { rewrite elem_of_difference, elem_of_singleton. tauto. }
  destruct b as [|r0 [|r1 [|r2 b]]]; cbn in *; subst; try done.
  all: destruct r1; try done.
  all: try destruct r2.
  all: run; rewrite Hf; cbn.
  all: split; [eauto|]; split; [reflexivity|]; split; [trace_calls|].
  all: split; [reflexivity|]; try reflexivity; exact Hgone.
Qed.

Lemma createPost_preview_failure_compensates_witness :
  let w := with_script [Resolves; ResolvesFalsy; Resolves] empty_world in
  let w' := final (createPost new_post) w in
  (∃ e, outcome (createPost new_post) w = Thrown e) ∧
  posts w' = [] ∧
  storage_calls (trace w') =
    [Sdk (call_createFile "id0"); Sdk (call_getFilePreview "id0");
     Sdk (call_deleteFile "id0")] ∧
  outcome (createPost new_post) w
    = Thrown (JsError "Failed to get file preview URL.") ∧
  ("id0" ∉ files w').
Proof.
  apply (createPost_preview_failure_compensates new_post
           (with_script [Resolves; ResolvesFalsy; Resolves] empty_world)
           photo []).
  - reflexivity.
  - reflexivity.
  - vm_compute. discriminate.
Defined.

(** C2 (counterexample).  Upload succeeds, the preview fails and the storage
    service rejects the compensating delete: [createPost] returns the
    rejection of the delete, the deletion was attempted, and the asset "id0"
    is still in the asset store after the call has returned. *)
Lemma createPost_preview_failure_delete_rejected :
  let w :=
    with_script [Resolves; ResolvesFalsy; Rejects outage] empty_world in
  let w' := final (createPost new_post) w in
  outcome (createPost new_post) w = Thrown outage ∧
  storage_calls (trace w') =
    [Sdk (call_createFile "id0"); Sdk (call_getFilePreview "id0");
     Sdk (call_deleteFile "id0")] ∧
  ("id0" ∈ files w') ∧
  ¬ ("id0" ∉ files w').
Proof.
  cbv zeta.
  assert ("id0" ∈ files (final (createPost new_post)
            (with_script [Resolves; ResolvesFalsy; Rejects outage] empty_world)))
    as Hin by (apply (bool_decide_unpack _); vm_compute; exact I).
  split; [reflexivity|]. split; [reflexivity|]. split; [exact Hin|].
  intros Hnot. exact (Hnot Hin).
Qed.

(** What CREATE does when the record cannot be persisted because
    [createDocument] rejects: the rejection goes straight to the outer
    [catch], which logs and rethrows; no [deleteFile] is issued. *)
Lemma createPost_persist_rejected_run (post : INewPost.t) (w : World)
    (f : File) (fs : list File) (e : error) :
  INewPost.file post = f :: fs →
  upcoming 0 w = Resolves →
  upcoming 1 w = Resolves →
  upcoming 2 w = Rejects e →
  let fileId := unique_id (next_id w) in
  let w' := final (createPost post) w in
  outcome (createPost post) w = Thrown e ∧
  files w' = files w ∪ {[fileId]} ∧
  posts w' = posts w ∧
  storage_calls (trace w') =
    storage_calls (trace w) ++
      [Sdk (call_createFile fileId); Sdk (call_getFilePreview fileId)].
Proof.
  intros Hf H0 H1 H2. open_world w.
  destruct b as [|r0 [|r1 [|r2 b]]]; cbn in *; subst; try done.
  run; rewrite Hf; cbn. truthy_preview (unique_id n).
  repeat split; trace_calls.
Qed.

(** The sibling path: when [createDocument] resolves with a falsy value the
    asset is deleted before the error is thrown. *)
Lemma createPost_persist_falsy_deletes_asset (post : INewPost.t) (w : World)
    (f : File) (fs : list File) :
  INewPost.file post = f :: fs →
  upcoming 0 w = Resolves →
  upcoming 1 w = Resolves →
  upcoming 2 w = ResolvesFalsy →
  is_rejection (upcoming 3 w) = false →
  let fileId := unique_id (next_id w) in
  let w' := final (createPost post) w in
  outcome (createPost post) w
    = Thrown (JsError "Failed to create post document.") ∧
  files w' = (files w ∪ {[fileId]}) ∖ {[fileId]} ∧
  posts w' = posts w.
Proof.
  intros Hf H0 H1 H2 H3. open_world w.
  destruct b as [|r0 [|r1 [|r2 [|r3 b]]]]; cbn in *; subst; try done.
  all: try destruct r3; try done.
  all: run; rewrite Hf; cbn; truthy_preview (unique_id n); done.
Qed.

(** C1 (the code at the failing input).  Upload and preview succeed, the
    document service rejects [createDocument] with an outage: [createPost]
    returns that error, yet the uploaded asset "id0" is still in the bucket
    and no [deleteFile] call was made; no record exists. *)
Theorem createPost_persist_rejection_leaves_asset :
  let w := with_script [Resolves; Resolves; Rejects outage] empty_world in
  let w' := final (createPost new_post) w in
  outcome (createPost new_post) w = Thrown outage ∧
  ("id0" ∈ files w') ∧
  posts w' = [] ∧
  storage_calls (trace w') =
    [Sdk (call_createFile "id0"); Sdk (call_getFilePreview "id0")].
Proof.
  cbv zeta.
  destruct (createPost_persist_rejected_run new_post
              (with_script [Resolves; Resolves; Rejects outage] empty_world)
              photo [] outage)
    as (Hout & Hfiles & Hposts & Hcalls); try reflexivity.
  split; [exact Hout|]. split; [|split; assumption].
  rewrite Hfiles. apply elem_of_union_r. by apply elem_of_singleton.
Qed.

(** ** Tag parsing *)

Lemma chars_replace_spaces (s : string) :
  Js.chars (Js.replace_spaces s)
  = List.filter (λ c, negb (Ascii.eqb c " "%char)) (Js.chars s).
Proof.
  induction s as [|c r IH]; cbn; [reflexivity|].
  destruct (Ascii.eqb c " "%char); cbn; [exact IH | by rewrite IH].
Qed.

Lemma replace_spaces_no_space (s : string) :
  ¬ In " "%char (Js.chars (Js.replace_spaces s)).
Proof.
  rewrite chars_replace_spaces. intros Hin.
  apply List.filter_In in Hin as [_ Hne].
  by rewrite Ascii.eqb_refl in Hne.
Qed.

Lemma split_comma_nonempty (s : string) : Js.split_comma s ≠ [].
Proof.
  induction s as [|c r IH]; cbn; [done|].
  destruct (Ascii.eqb c ","%char); [done|].
  by destruct (Js.split_comma r).
Qed.

Lemma join_comma_cons_String (c : ascii) (p : string) (ps : list string) :
  Js.join_comma (String c p :: ps) = String c (Js.join_comma (p :: ps)).
Proof. by destruct ps. Qed.

Lemma join_comma_cons_empty (p : string) (ps : list string) :
  Js.join_comma (EmptyString :: p :: ps)
  = String ","%char (Js.join_comma (p :: ps)).
Proof. reflexivity. Qed.

Lemma join_split_comma (s : string) : Js.join_comma (Js.split_comma s) = s.
Proof.
  induction s as [|c r IH]; cbn; [reflexivity|].
  pose proof (split_comma_nonempty r) as Hne.
  destruct (Ascii.eqb c ","%char) eqn:Ec.
  - apply Ascii.eqb_eq in Ec as ->.
    destruct (Js.split_comma r) as [|p ps]; [done|].
    by rewrite join_comma_cons_empty, IH.
  - destruct (Js.split_comma r) as [|p ps]; [done|].
    by rewrite join_comma_cons_String, IH.
Qed.

Lemma split_comma_no_comma (s : string) :
  Forall (λ piece, ¬ In ","%char (Js.chars piece)) (Js.split_comma s).
Proof.
  induction s as [|c r IH]; cbn.
  - constructor; [tauto | constructor].
  - destruct (Ascii.eqb c ","%char) eqn:Ec.
    + constructor; [cbn; tauto | exact IH].
    + destruct (Js.split_comma r) as [|p ps].
      * constructor; [|constructor]. cbn. intros [->|[]].
        by rewrite Ascii.eqb_refl in Ec.
      * inversion IH as [|? ? Hp Hps]; subst.
        constructor; [|exact Hps]. cbn. intros [->|Hin]; [|tauto].
        by rewrite Ascii.eqb_refl in Ec.
Qed.

Lemma split_comma_chars (s : string) :
  Forall (λ piece, ∀ c, In c (Js.chars piece) → In c (Js.chars s))
    (Js.split_comma s).
Proof.
  induction s as [|c r IH]; cbn.
  - constructor; [tauto | constructor].
  - destruct (Ascii.eqb c ","%char).
    + constructor; [cbn; tauto|].
      eapply Forall_impl; [exact IH|]. cbn. auto.
    + destruct (Js.split_comma r) as [|p ps].
      * constructor; [|constructor]. cbn. tauto.
      * inversion IH as [|? ? Hp Hps]; subst.
        constructor.
        -- cbn. intros x [->|Hin]; auto.
        -- eapply Forall_impl; [exact Hps|]. cbn. auto.
Qed.

(** C3 (as amended).  The tag expression drops every space character and
    nothing else, then cuts at the commas: "a, b ,c" gives a, b, c; the
    pieces of a supplied string, joined by commas again, are the string
    without its spaces, and no piece holds a comma or a space; an absent tag
    field gives the empty list. *)
Theorem parse_tags_strips_spaces_and_splits :
  parse_tags (Some "a, b ,c") = ["a"; "b"; "c"] ∧
  parse_tags None = [] ∧
  ∀ s : string,
    Js.chars (Js.join_comma (parse_tags (Some s)))
      = List.filter (λ c, negb (Ascii.eqb c " "%char)) (Js.chars s) ∧
    Forall (λ tag, ¬ In ","%char (Js.chars tag) ∧ ¬ In " "%char (Js.chars tag))
      (parse_tags (Some s)).
Proof.
  split; [reflexivity|]. split; [reflexivity|].
  intros s. unfold parse_tags. split.
  - rewrite join_split_comma. apply chars_replace_spaces.
  - pose proof (split_comma_no_comma (Js.replace_spaces s)) as Hc.
    pose proof (split_comma_chars (Js.replace_spaces s)) as Hs.
    rewrite List.Forall_forall in *. intros tag Hin. split; [by apply Hc|].
    intros Hsp. apply (replace_spaces_no_space s). by apply (Hs tag).
Qed.

(** C3 (counterexample).  An empty string and a string of spaces both give
    the one-element list holding the empty string, not the empty list, and a
    tab is not stripped. *)
Lemma parse_tags_empty_and_tab :
  parse_tags (Some EmptyString) = [EmptyString] ∧
  parse_tags (Some EmptyString) ≠ [] ∧
  parse_tags (Some "   ") = [EmptyString] ∧
  parse_tags (Some (String "a" (String "," (String "009" "b"))))
    = ["a"; String "009" "b"].
Proof. repeat split; try reflexivity. discriminate. Qed.

(** ** Relationship registry *)

Lemma matching_app (qs : list Query) (l1 l2 : list Doc) :
  Sdk.matching qs (l1 ++ l2) = Sdk.matching qs l1 ++ Sdk.matching qs l2.
Proof. unfold Sdk.matching. apply List.filter_app. Qed.

Lemma matching_In (qs : list Query) (l : list Doc) (d : Doc) :
  In d (Sdk.matching qs l) → In d l.
Proof. unfold Sdk.matching. intros H. by apply List.filter_In in H as [? _]. Qed.

Lemma follow_edge_fields (documentId a b : string) :
  doc_data (follow_edge documentId a b) !! "followerId" = Some (VStr a) ∧
  doc_data (follow_edge documentId a b) !! "followingId" = Some (VStr b).
Proof. split; reflexivity. Qed.

Lemma save_edge_holds (documentId userId postId : string) :
  Sdk.query_holds (save_edge documentId userId postId)
    (Query_equal "user" userId) = true ∧
  Sdk.query_holds (save_edge documentId userId postId)
    (Query_equal "post" postId) = true.
Proof. split; apply bool_decide_eq_true_2; reflexivity. Qed.

Lemma save_edge_matches (documentId userId postId : string) :
  Sdk.matching (save_queries userId postId)
    [save_edge documentId userId postId]
  = [save_edge documentId userId postId].
Proof.
  destruct (save_edge_holds documentId userId postId) as [Hu Hp].
  unfold Sdk.matching, save_queries. cbn [List.filter forallb].
  by rewrite Hu, Hp.
Qed.

(** C4 (as amended).  [followUser] does not compare its two ids: a self-follow
    takes the same check-then-create path as any other pair.  With the
    service answering normally, an existing (a, a) edge is returned and
    nothing is created; otherwise an edge whose followerId and followingId
    are both a is persisted and returned. *)
Theorem followUser_accepts_self_follow (a : string) (w : World) :
  upcoming 0 w = Resolves →
  upcoming 1 w = Resolves →
  match Sdk.matching (follow_queries a a) (followers w) with
  | existing :: _ =>
      outcome (followUser a a) w = Returned existing ∧
      followers (final (followUser a a) w) = followers w
  | [] =>
      let edge := follow_edge (unique_id (next_id w)) a a in
      outcome (followUser a a) w = Returned edge ∧
      followers (final (followUser a a) w) = followers w ++ [edge] ∧
      doc_data edge !! "followerId" = Some (VStr a) ∧
      doc_data edge !! "followingId" = Some (VStr a)
  end.
Proof.
  intros H0 H1. open_world w. unfold follow_queries.
  destruct b as [|r0 [|r1 b]]; cbn in *; subst.
  all: run.
  all: destruct (Sdk.matching _ fo) as [|existing others] eqn:Hm; cbn.
  all: done.
Qed.

Lemma followUser_accepts_self_follow_witness :
  outcome (followUser "u1" "u1") empty_world
    = Returned (follow_edge "id0" "u1" "u1") ∧
  followers (final (followUser "u1" "u1") empty_world)
    = [follow_edge "id0" "u1" "u1"] ∧
  doc_data (follow_edge "id0" "u1" "u1") !! "followerId" = Some (VStr "u1") ∧
  doc_data (follow_edge "id0" "u1" "u1") !! "followingId" = Some (VStr "u1").
Proof.
  apply (followUser_accepts_self_follow "u1" empty_world); reflexivity.
Defined.

(** C4 (counterexample).  On a pristine store [followUser("u1", "u1")] is
    not rejected: it returns a new edge, and that edge, whose followerId
    equals its followingId, is now stored. *)
Lemma followUser_self_follow_creates_edge :
  outcome (followUser "u1" "u1") empty_world
    = Returned (follow_edge "id0" "u1" "u1") ∧
  (∀ e, outcome (followUser "u1" "u1") empty_world ≠ Thrown e) ∧
  followers (final (followUser "u1" "u1") empty_world)
    = [follow_edge "id0" "u1" "u1"] ∧
  doc_data (follow_edge "id0" "u1" "u1") !! "followerId"
    = doc_data (follow_edge "id0" "u1" "u1") !! "followingId".
Proof.
  split; [reflexivity|]. split; [intros e; discriminate|].
  split; reflexivity.
Qed.

(** C6.  With the service answering normally, [savePost] returns the first
    existing edge of the pair and leaves the collection as it is; only when
    the pair has no edge does it append one.  A second call made right after
    the first returns the same edge and adds nothing, so a pair without an
    edge has exactly one after two calls. *)
Theorem savePost_idempotent (userId postId : string) (w : World) :
  upcoming 0 w = Resolves →
  upcoming 1 w = Resolves →
  upcoming 2 w = Resolves →
  let once := final (savePost userId postId) w in
  let twice := final (savePost userId postId) once in
  match Sdk.matching (save_queries userId postId) (saves w) with
  | existing :: _ =>
      outcome (savePost userId postId) w = Returned existing ∧
      saves once = saves w ∧
      outcome (savePost userId postId) once = Returned existing ∧
      saves twice = saves w
  | [] =>
      let edge := save_edge (unique_id (next_id w)) userId postId in
      outcome (savePost userId postId) w = Returned edge ∧
      saves once = saves w ++ [edge] ∧
      outcome (savePost userId postId) once = Returned edge ∧
      saves twice = saves w ++ [edge] ∧
      Sdk.matching (save_queries userId postId) (saves twice) = [edge]
  end.
Proof.
  intros H0 H1 H2. open_world w. unfold save_queries.
  destruct (Sdk.matching _ ss) as [|existing others] eqn:Hm.
  - pose proof (save_edge_matches (unique_id n) userId postId) as He.
    unfold save_queries, save_edge in He.
    destruct b as [|r0 [|r1 [|r2 b]]]; cbn in *; subst.
    all: run; rewrite Hm; cbn.
    all: repeat (progress (rewrite ?matching_app, ?Hm, ?He; cbn)).
    all: done.
  - destruct b as [|r0 [|r1 [|r2 b]]]; cbn in *; subst.
    all: run; rewrite Hm; cbn; rewrite ?Hm; cbn.
    all: done.
Qed.

Lemma savePost_idempotent_witness :
  let once := final (savePost "u1" "p1") empty_world in
  let twice := final (savePost "u1" "p1") once in
  outcome (savePost "u1" "p1") empty_world
    = Returned (save_edge "id0" "u1" "p1") ∧
  saves once = [save_edge "id0" "u1" "p1"] ∧
  outcome (savePost "u1" "p1") once = Returned (save_edge "id0" "u1" "p1") ∧
  saves twice = [save_edge "id0" "u1" "p1"] ∧
  Sdk.matching (save_queries "u1" "p1") (saves twice)
    = [save_edge "id0" "u1" "p1"].
Proof.
  exact (savePost_idempotent "u1" "p1" empty_world eq_refl eq_refl eq_refl).
Defined.

(** Deleting by the id of the first match removes that match and nothing
    else, as long as ids are not shared. *)
Lemma filter_other_ids (documentId : string) (l : list Doc) :
  ¬ In documentId (doc_id <$> l) →
  List.filter (λ d, negb (Sdk.has_id documentId d)) l = l.
Proof.
  induction l as [|x l IH]; cbn; [done|].
  intros Hnot. unfold Sdk.has_id at 1.
  rewrite bool_decide_eq_false_2 by (intros E; apply Hnot; by left).
  cbn. rewrite IH; [done|]. intros Hin. apply Hnot. by right.
Qed.

Lemma matching_cons (qs : list Query) (x : Doc) (l : list Doc) :
  Sdk.matching qs (x :: l)
  = if forallb (Sdk.query_holds x) qs then x :: Sdk.matching qs l
    else Sdk.matching qs l.
Proof. reflexivity. Qed.

Lemma matching_delete_first (qs : list Query) (l : list Doc) :
  NoDup (doc_id <$> l) →
  match Sdk.matching qs l with
  | [] => True
  | d :: _ =>
      Sdk.matching qs (List.filter (λ x, negb (Sdk.has_id (doc_id d) x)) l)
      = tail (Sdk.matching qs l)
  end.
Proof.
  induction l as [|x l IH]; [done|].
  rewrite fmap_cons, NoDup_cons, list_elem_of_In. intros [Hx Hl].
  specialize (IH Hl). rewrite matching_cons.
  destruct (forallb (Sdk.query_holds x) qs) eqn:Hok.
  - cbn [List.filter tail]. unfold Sdk.has_id at 1.
    rewrite bool_decide_eq_true_2 by done. cbn [negb].
    by rewrite (filter_other_ids (doc_id x) l Hx).
  - destruct (Sdk.matching qs l) as [|d ds] eqn:Hm; [done|].
    assert (In d l) as Hd by (apply (matching_In qs); rewrite Hm; by left).
    cbn [List.filter]. unfold Sdk.has_id at 1.
    rewrite bool_decide_eq_false_2.
    + cbn [negb]. by rewrite matching_cons, Hok.
    + intros E. apply Hx. rewrite E. by apply List.in_map.
Qed.

(** C5 (as amended).  With the service answering normally, [unfollowUser]
    lists the edges of the ordered pair and deletes the first one only: the
    edges of the pair left afterwards are the former ones without the first
    (none when there was at most one).  The call reports success in every
    case, and changes nothing when the pair has no edge. *)
Theorem unfollowUser_deletes_first_match (followerId followingId : string)
    (w : World) :
  upcoming 0 w = Resolves →
  is_rejection (upcoming 1 w) = false →
  NoDup (doc_id <$> followers w) →
  let qs := follow_queries followerId followingId in
  let w' := final (unfollowUser followerId followingId) w in
  outcome (unfollowUser followerId followingId) w
    = Returned {| status := "Ok";
                  message := Some "Unfollow process completed." |} ∧
  Sdk.matching qs (followers w') = tail (Sdk.matching qs (followers w)) ∧
  (Sdk.matching qs (followers w) = [] → followers w' = followers w).
Proof.
  intros H0 H1 Hnd. open_world w. unfold follow_queries.
  pose proof
    (matching_delete_first
       [Query_equal "followerId" followerId;
        Query_equal "followingId" followingId] fo Hnd) as Hfirst.
  destruct (Sdk.matching _ fo) as [|d ds] eqn:Hm.
  - destruct b as [|r0 [|r1 b]]; cbn in *; subst.
    all: run; rewrite Hm; cbn; rewrite ?Hm; done.
  - destruct b as [|r0 [|r1 b]]; cbn in *; subst.
    all: try destruct r1; try done.
    all: run; rewrite Hm; cbn; rewrite ?Hfirst; done.
Qed.

Lemma unfollowUser_deletes_first_match_witness :
  let qs := follow_queries "a" "b" in
  let w' := final (unfollowUser "a" "b") two_follow_edges in
  outcome (unfollowUser "a" "b") two_follow_edges
    = Returned {| status := "Ok";
                  message := Some "Unfollow process completed." |} ∧
  Sdk.matching qs (followers w')
    = tail (Sdk.matching qs (followers two_follow_edges)) ∧
  (Sdk.matching qs (followers two_follow_edges) = [] →
   followers w' = followers two_follow_edges).
Proof.
  apply (unfollowUser_deletes_first_match "a" "b" two_follow_edges).
  - reflexivity.
  - reflexivity.
  - apply (bool_decide_unpack _). vm_compute. exact I.
Defined.

(** C5 (counterexample).  Two edges exist for the pair (a, b), as the
    duplicate-edge race can leave them: after [unfollowUser("a", "b")] has
    reported success, the second edge is still stored. *)
Lemma unfollowUser_leaves_duplicate_edge :
  Sdk.matching (follow_queries "a" "b") (followers two_follow_edges)
    = [follow_edge "e1" "a" "b"; follow_edge "e2" "a" "b"] ∧
  outcome (unfollowUser "a" "b") two_follow_edges
    = Returned {| status := "Ok";
                  message := Some "Unfollow process completed." |} ∧
  Sdk.matching (follow_queries "a" "b")
    (followers (final (unfollowUser "a" "b") two_follow_edges))
    = [follow_edge "e2" "a" "b"] ∧
  Sdk.matching (follow_queries "a" "b")
    (followers (final (unfollowUser "a" "b") two_follow_edges)) ≠ [].
Proof.
  assert (Sdk.matching (follow_queries "a" "b")
            (followers (final (unfollowUser "a" "b") two_follow_edges))
          = [follow_edge "e2" "a" "b"]) as Hleft by (vm_compute; reflexivity).
  split; [vm_compute; reflexivity|]. split; [reflexivity|].
  split; [exact Hleft|]. rewrite Hleft. discriminate.
Qed.

(** ** Stored documents under a partial update *)

Section PartialUpdate.

Context (documentId : string) (data : gmap string value).

Lemma patch_id_doc_id (d : Doc) :
  doc_id (Sdk.patch_id documentId data d) = doc_id d.
Proof. unfold Sdk.patch_id. by destruct (Sdk.has_id documentId d). Qed.

Lemma has_id_patch_id (d : Doc) :
  Sdk.has_id documentId (Sdk.patch_id documentId data d)
  = Sdk.has_id documentId d.
Proof. unfold Sdk.has_id. by rewrite patch_id_doc_id. Qed.

(** The document found under the id after the update is the patched one. *)
Lemma find_patch_id (l : list Doc) :
  List.find (Sdk.has_id documentId) (map (Sdk.patch_id documentId data) l)
  = Sdk.patch data <$> List.find (Sdk.has_id documentId) l.
Proof.
  induction l as [|x l IH]; [reflexivity|].
  cbn [map List.find]. rewrite has_id_patch_id.
  destruct (Sdk.has_id documentId x) eqn:Hx; [|exact IH].
  unfold Sdk.patch_id. by rewrite Hx.
Qed.

(** Sending the same attributes twice changes nothing the second time. *)
Lemma patch_idemp (d : Doc) :
  Sdk.patch data (Sdk.patch data d) = Sdk.patch data d.
Proof.
  unfold Sdk.patch. cbn. f_equal.
  by rewrite (assoc_L (∪)), (idemp_L (∪)).
Qed.

Lemma patch_id_idemp (l : list Doc) :
  map (Sdk.patch_id documentId data) (map (Sdk.patch_id documentId data) l)
  = map (Sdk.patch_id documentId data) l.
Proof.
  rewrite List.map_map. apply List.map_ext. intros d.
  pose proof (has_id_patch_id d) as Hid.
  unfold Sdk.patch_id at 1. rewrite Hid.
  unfold Sdk.patch_id. destruct (Sdk.has_id documentId d); [|done].
  apply patch_idemp.
Qed.

(** An attribute that was sent is what the document holds afterwards. *)
Lemma patch_lookup (d : Doc) (k : string) (v : value) :
  data !! k = Some v → doc_data (Sdk.patch data d) !! k = Some v.
Proof. intros H. unfold Sdk.patch. cbn. by apply lookup_union_Some_l. Qed.

End PartialUpdate.

(** ** Like toggle *)

Lemma updatedLikes_member (likes : list string) (userId x : string) :
  In x (updatedLikes likes userId) ↔
  if Js.includes likes userId then In x likes ∧ x ≠ userId
  else In x likes ∨ x = userId.
Proof.
  unfold updatedLikes. destruct (Js.includes likes userId).
  - rewrite List.filter_In, negb_true_iff, bool_decide_eq_false. tauto.
  - rewrite List.in_app_iff. cbn. intuition.
Qed.

(** C7.  The toggle works on membership: an id that is present is removed
    (every other id stays), an absent id is added (nothing else changes);
    {u1,u2} without u1 is {u2}, and {u2} with u1 is {u1,u2} up to order.  The
    handler sends the whole resulting array, [likePost] stores it as the
    likes of the post, and sending the same array again stores the same
    documents. *)
Theorem like_toggle_set_semantics (postId userId : string)
    (likes : list string) (w : World) (old : Doc) :
  upcoming 0 w = Resolves →
  upcoming 1 w = Resolves →
  List.find (Sdk.has_id postId) (posts w) = Some old →
  let updated := updatedLikes likes userId in
  let once := final (handleLikePost postId likes userId) w in
  let twice := final (likePost postId updated) once in
  (∀ x, In x updated ↔
        if Js.includes likes userId then In x likes ∧ x ≠ userId
        else In x likes ∨ x = userId) ∧
  updatedLikes ["u1"; "u2"] "u1" = ["u2"] ∧
  updatedLikes ["u2"] "u1" ≡ₚ ["u1"; "u2"] ∧
  outcome (handleLikePost postId likes userId) w = Returned updated ∧
  (∃ d, List.find (Sdk.has_id postId) (posts once) = Some d ∧
        doc_data d !! "likes" = Some (VArr updated)) ∧
  posts twice = posts once.
Proof.
  intros H0 H1 Hold updated once twice.
  split; [intros x; apply updatedLikes_member|].
  split; [reflexivity|].
  split; [exact (Permutation_swap "u1" "u2" [])|].
  subst once twice. open_world w.
  destruct b as [|r0 [|r1 b]]; cbn in *; subst.
  all: run; rewrite Hold; cbn.
  all: rewrite !find_patch_id, Hold; cbn.
  all: rewrite patch_id_idemp.
  all: split; [done|]; split; [|done].
  all: eexists; split; [reflexivity|]; by apply patch_lookup.
Qed.

Lemma like_toggle_set_semantics_witness :
  let updated := updatedLikes ["u1"; "u2"] "u1" in
  let once := final (handleLikePost "p1" ["u1"; "u2"] "u1") one_post in
  let twice := final (likePost "p1" updated) once in
  (∀ x, In x updated ↔
        if Js.includes ["u1"; "u2"] "u1" then In x ["u1"; "u2"] ∧ x ≠ "u1"
        else In x ["u1"; "u2"] ∨ x = "u1") ∧
  updatedLikes ["u1"; "u2"] "u1" = ["u2"] ∧
  updatedLikes ["u2"] "u1" ≡ₚ ["u1"; "u2"] ∧
  outcome (handleLikePost "p1" ["u1"; "u2"] "u1") one_post = Returned updated ∧
  (∃ d, List.find (Sdk.has_id "p1") (posts once) = Some d ∧
        doc_data d !! "likes" = Some (VArr updated)) ∧
  posts twice = posts once.
Proof.
  apply (like_toggle_set_semantics "p1" "u1" ["u1"; "u2"] one_post stored_post);
    reflexivity.
Defined.

(** ** UPDATE *)

(** C8.  An update without a new file makes no asset-store call and leaves
    the bucket as it is.  An update with a new file whose upload, preview and
    document update succeed returns the updated record whatever the storage
    service answers to the deletion of the old asset; when that deletion is
    rejected the failure is only written to the console as a warning and the
    old asset stays. *)
Theorem updatePost_asset_frame (post : IUpdatePost.t) (w : World) :
  let w' := final (updatePost post) w in
  (IUpdatePost.file post = [] →
     files w' = files w ∧
     storage_calls (trace w') = storage_calls (trace w)) ∧
  (∀ f fs old,
     IUpdatePost.file post = f :: fs →
     upcoming 0 w = Resolves →
     upcoming 1 w = Resolves →
     upcoming 2 w = Resolves →
     List.find (Sdk.has_id (IUpdatePost.postId post)) (posts w) = Some old →
     let newId := unique_id (next_id w) in
     outcome (updatePost post) w
       = Returned
           (Sdk.patch (post_update_data post (Sdk.preview_href newId, newId))
              old) ∧
     ∀ e oldId,
       IUpdatePost.imageId post = Some oldId →
       Js.truthy oldId = true →
       oldId ≠ newId →
       upcoming 3 w = Rejects e →
       last (trace w')
         = Some (Console warn_level
                   ("Failed to delete old file with ID " +:+ oldId)) ∧
       (oldId ∈ files w → oldId ∈ files w')).
Proof.
  cbv zeta. split.
  - intros Hf. open_world w.
    destruct b as [|r0 b]; [|destruct r0]; run; rewrite Hf; cbn.
    all: try (destruct (List.find _ ps); cbn).
    all: destruct (IUpdatePost.imageId post) as [[|? ?]|]; cbn.
    all: split; [reflexivity|trace_calls].
  - intros f fs old Hf H0 H1 H2 Hold. open_world w.
    destruct b as [|r0 [|r1 [|r2 b]]]; cbn in *; subst.
    all: run; rewrite Hf; cbn; truthy_preview (unique_id n).
    all: rewrite Hold; cbn.
    all: split.
    all: try (intros e oldId Hid Htruthy Hne H3; rewrite Hid;
              destruct oldId as [|c0 s0]; [done|];
              rewrite (bool_decide_eq_false_2 _ Hne); cbn).
    all: try discriminate.
    all: try (destruct b as [|r3 b]; cbn in *; [discriminate|]; subst r3; cbn;
              split; [apply last_snoc | apply elem_of_union_l]).
    all: destruct (IUpdatePost.imageId post) as [[|c0 s0]|]; cbn; try done.
    all: case_bool_decide; cbn; try done.
    all: try (destruct b as [|[| |e] b]; cbn; done).
Qed.

Lemma updatePost_asset_frame_witness :
  (files (final (updatePost caption_only) one_post) = files one_post ∧
   storage_calls (trace (final (updatePost caption_only) one_post))
     = storage_calls (trace one_post)) ∧
  (outcome (updatePost with_new_file) old_delete_fails
     = Returned
         (Sdk.patch
            (post_update_data with_new_file (Sdk.preview_href "id0", "id0"))
            stored_post) ∧
   last (trace (final (updatePost with_new_file) old_delete_fails))
     = Some (Console warn_level "Failed to delete old file with ID old") ∧
   ("old" ∈ files (final (updatePost with_new_file) old_delete_fails))).
Proof.
  split.
  - apply (updatePost_asset_frame caption_only one_post). reflexivity.
  - destruct (proj2 (updatePost_asset_frame with_new_file old_delete_fails)
                photo [] stored_post eq_refl eq_refl eq_refl eq_refl eq_refl)
      as [Hout Hwarn].
    split; [exact Hout|].
    assert ("old" ≠ unique_id (next_id old_delete_fails)) as Hne
      by (intros E; vm_compute in E; discriminate E).
    destruct (Hwarn outage "old" eq_refl eq_refl Hne eq_refl) as [Hlast Hin].
    split; [exact Hlast|]. apply Hin.
    apply (bool_decide_unpack _). vm_compute. exact I.
Defined.

(** C10.  Whenever the update reaches the document (the calls it makes
    resolve and the post exists), an omitted caption is stored as the literal
    "No caption" and an omitted location as "Unknown location", whatever the
    record held before. *)
Theorem updatePost_defaults_overwrite (post : IUpdatePost.t) (w : World)
    (old : Doc) :
  (∀ i, i < update_calls post → upcoming i w = Resolves) →
  List.find (Sdk.has_id (IUpdatePost.postId post)) (posts w) = Some old →
  ∃ d,
    outcome (updatePost post) w = Returned d ∧
    List.find (Sdk.has_id (IUpdatePost.postId post))
      (posts (final (updatePost post) w)) = Some d ∧
    (IUpdatePost.caption post = None →
       doc_data d !! "caption" = Some (VStr "No caption")) ∧
    (IUpdatePost.location post = None →
       doc_data d !! "location" = Some (VStr "Unknown location")).
Proof.
  intros Hcalls Hold. unfold update_calls in Hcalls.
  assert (∀ image,
    (IUpdatePost.caption post = None →
       doc_data (Sdk.patch (post_update_data post image) old) !! "caption"
       = Some (VStr "No caption")) ∧
    (IUpdatePost.location post = None →
       doc_data (Sdk.patch (post_update_data post image) old) !! "location"
       = Some (VStr "Unknown location"))) as Hfields.
  { intros image. split; intros Hnone; apply patch_lookup;
      unfold post_update_data; rewrite Hnone; reflexivity. }
  destruct (IUpdatePost.file post) as [|f fs] eqn:Hf.
  - pose proof (Hcalls 0 ltac:(lia)) as H0. open_world w.
    destruct b as [|r0 b]; cbn in *; subst.
    all: run; rewrite Hf; cbn; rewrite Hold; cbn.
    all: destruct (IUpdatePost.imageId post) as [[|c0 s0]|]; cbn.
    all: eexists; split; [reflexivity|].
    all: split; [by rewrite find_patch_id, Hold | apply Hfields].
  - pose proof (Hcalls 0 ltac:(lia)) as H0.
    pose proof (Hcalls 1 ltac:(lia)) as H1.
    pose proof (Hcalls 2 ltac:(lia)) as H2. open_world w.
    destruct b as [|r0 [|r1 [|r2 b]]]; cbn in *; subst.
    all: run; rewrite Hf; cbn; truthy_preview (unique_id n).
    all: rewrite Hold; cbn.
    all: destruct (IUpdatePost.imageId post) as [[|c0 s0]|]; cbn.
    all: try (case_bool_decide; cbn).
    all: try (destruct b as [|[| |e] b]; cbn).
    all: eexists; split; [reflexivity|].
    all: split; [by rewrite find_patch_id, Hold | apply Hfields].
Qed.

Lemma updatePost_defaults_overwrite_witness :
  doc_data stored_post !! "caption" = Some (VStr "sunset") ∧
  ∃ d,
    outcome (updatePost caption_only) one_post = Returned d ∧
    List.find (Sdk.has_id "p1") (posts (final (updatePost caption_only) one_post))
      = Some d ∧
    (IUpdatePost.caption caption_only = None →
       doc_data d !! "caption" = Some (VStr "No caption")) ∧
    (IUpdatePost.location caption_only = None →
       doc_data d !! "location" = Some (VStr "Unknown location")).
Proof.
  split; [reflexivity|].
  apply (updatePost_defaults_overwrite caption_only one_post stored_post).
  - intros i Hi. assert (i = 0) as -> by (cbn in Hi; lia). reflexivity.
  - reflexivity.
Defined.

(** * Further properties of the module *)

(** Unfold the remaining functions as well. *)
Ltac run_more :=
  unfold outcome, final, getPostById, deletePost, deleteSavedPost,
    getFollowersCount, getFollowingCount, updateUser, getCurrentUser,
    getAccount, account_get, saveUserToDB, SdkRead.databases_getDocument,
    Legacy.createPost, Legacy.updatePost, Legacy.savePost, Legacy.followUser,
    Legacy.unfollowUser, Legacy.uploadFile, Legacy.getFilePreview,
    Legacy.deleteFile, Legacy.the_Error;
  run.

(** ** DELETE *)

Lemma find_after_delete (documentId : string) (l : list Doc) :
  List.find (Sdk.has_id documentId)
    (List.filter (λ d, negb (Sdk.has_id documentId d)) l) = None.
Proof.
  induction l as [|x l IH]; [reflexivity|]. cbn [List.filter].
  destruct (Sdk.has_id documentId x) eqn:Hx; cbn [negb List.find]; [exact IH|].
  by rewrite Hx.
Qed.

(** X1.  DELETE removes the record first.  When the service rejects that
    deletion, its error is what [deletePost] returns and the asset is not
    touched: no storage call is made, bucket and records are as before. *)
Theorem deletePost_record_rejection_is_terminal (postId : string)
    (imageId : option string) (w : World) (e : error) :
  Js.truthy postId = true →
  upcoming 0 w = Rejects e →
  let w' := final (deletePost (Some postId) imageId) w in
  outcome (deletePost (Some postId) imageId) w = Thrown e ∧
  files w' = files w ∧
  posts w' = posts w ∧
  storage_calls (trace w') = storage_calls (trace w).
Proof.
  intros Hid H0. destruct postId as [|c s]; [done|]. open_world w.
  destruct b as [|r0 b]; cbn in *; subst; [done|].
  run_more. repeat split; trace_calls.
Qed.

Lemma deletePost_record_rejection_is_terminal_witness :
  let w := with_script [Rejects outage] one_post in
  let w' := final (deletePost (Some "p1") (Some "old")) w in
  outcome (deletePost (Some "p1") (Some "old")) w = Thrown outage ∧
  files w' = files w ∧
  posts w' = posts w ∧
  storage_calls (trace w') = storage_calls (trace w).
Proof.
  apply (deletePost_record_rejection_is_terminal "p1" (Some "old")
           (with_script [Rejects outage] one_post) outage); reflexivity.
Defined.

(** X2.  Once the record deletion has gone through, [deletePost] reports
    success whatever happens to the asset: no record with that id is left,
    the asset is removed when the storage service carries out the deletion
    and stays when it rejects it, and without an image id no storage call is
    made at all. *)
Theorem deletePost_asset_best_effort (postId : string)
    (imageId : option string) (w : World) :
  Js.truthy postId = true →
  is_rejection (upcoming 0 w) = false →
  let w' := final (deletePost (Some postId) imageId) w in
  outcome (deletePost (Some postId) imageId) w
    = Returned
        {| status := "Ok";
           message :=
             Some "Post and associated file (if any) deleted successfully." |} ∧
  posts w' = List.filter (λ d, negb (Sdk.has_id postId d)) (posts w) ∧
  List.find (Sdk.has_id postId) (posts w') = None ∧
  match imageId with
  | Some (String _ _ as img) =>
      files w' = if is_rejection (upcoming 1 w) then files w
                 else files w ∖ {[img]}
  | _ => files w' = files w ∧
         storage_calls (trace w') = storage_calls (trace w)
  end.
Proof.
  intros Hid H0. destruct postId as [|c s]; [done|]. open_world w.
  pose proof (find_after_delete (String c s) ps) as Hgone.
  destruct b as [|r0 [|r1 b]]; cbn in *; subst.
  all: try destruct r0; try done.
  all: try destruct r1.
  all: destruct imageId as [[|c' s']|]; run_more.
  all: repeat split; try exact Hgone; trace_calls.
Qed.

Lemma deletePost_asset_best_effort_witness :
  let w := with_script [Resolves; Rejects outage] one_post in
  let w' := final (deletePost (Some "p1") (Some "old")) w in
  outcome (deletePost (Some "p1") (Some "old")) w
    = Returned
        {| status := "Ok";
           message :=
             Some "Post and associated file (if any) deleted successfully." |} ∧
  posts w' = List.filter (λ d, negb (Sdk.has_id "p1" d)) (posts w) ∧
  List.find (Sdk.has_id "p1") (posts w') = None ∧
  files w' = files w.
Proof.
  apply (deletePost_asset_best_effort "p1" (Some "old")
           (with_script [Resolves; Rejects outage] one_post)); reflexivity.
Defined.

(** ** Save and follow edges *)

Lemma filter_delete_appended (d : Doc) (l : list Doc) :
  ¬ In (doc_id d) (doc_id <$> l) →
  List.filter (λ x, negb (Sdk.has_id (doc_id d) x)) (l ++ [d]) = l.
Proof.
  intros Hfresh. rewrite List.filter_app, (filter_other_ids _ _ Hfresh).
  cbn. unfold Sdk.has_id. rewrite bool_decide_eq_true_2 by done.
  cbn. apply app_nil_r.
Qed.

(** X3.  [deleteSavedPost] removes the save record with the given id and no
    other: when the service carries the deletion out, success is reported,
    no record with that id is left and every other record stays in place;
    when it rejects, the rejection is rethrown and the collection is as
    before. *)
Theorem deleteSavedPost_removes_that_record (savedRecordId : string)
    (w : World) :
  let w' := final (deleteSavedPost savedRecordId) w in
  match upcoming 0 w with
  | Rejects e =>
      outcome (deleteSavedPost savedRecordId) w = Thrown e ∧
      saves w' = saves w
  | _ =>
      outcome (deleteSavedPost savedRecordId) w
        = Returned {| status := "Ok";
                      message := Some "Saved post deleted successfully." |} ∧
      List.find (Sdk.has_id savedRecordId) (saves w') = None ∧
      saves w' = List.filter (λ d, negb (Sdk.has_id savedRecordId d)) (saves w)
  end.
Proof.
  pose proof (find_after_delete savedRecordId (saves w)) as Hgone.
  open_world w.
  destruct b as [|[| |e] b]; run_more; auto.
Qed.

(** X4.  Saving and then deleting the record that [savePost] returned is a
    round trip: for a pair without an edge, in a collection where the new id
    is not in use, the saves collection afterwards is the one before. *)
Theorem savePost_deleteSavedPost_round_trip (userId postId : string)
    (w : World) :
  upcoming 0 w = Resolves →
  upcoming 1 w = Resolves →
  is_rejection (upcoming 2 w) = false →
  Sdk.matching (save_queries userId postId) (saves w) = [] →
  ¬ In (unique_id (next_id w)) (doc_id <$> saves w) →
  let roundtrip :=
    saved ← savePost userId postId; deleteSavedPost (doc_id saved) in
  outcome roundtrip w
    = Returned {| status := "Ok";
                  message := Some "Saved post deleted successfully." |} ∧
  saves (final roundtrip w) = saves w.
Proof.
  intros H0 H1 H2 Hm Hfresh. open_world w. unfold save_queries in Hm.
  pose proof (filter_delete_appended
                (save_edge (unique_id n) userId postId) ss Hfresh) as Hdel.
  unfold save_edge in Hdel. cbn in Hdel.
  destruct b as [|r0 [|r1 [|r2 b]]]; cbn in *; subst.
  all: try destruct r2; try done.
  all: run_more; rewrite Hm; cbn; rewrite Hdel; done.
Qed.

Lemma savePost_deleteSavedPost_round_trip_witness :
  let roundtrip := saved ← savePost "u1" "p1"; deleteSavedPost (doc_id saved) in
  outcome roundtrip empty_world
    = Returned {| status := "Ok";
                  message := Some "Saved post deleted successfully." |} ∧
  saves (final roundtrip empty_world) = saves empty_world.
Proof.
  apply (savePost_deleteSavedPost_round_trip "u1" "p1" empty_world);
    try reflexivity.
  intros H. exact H.
Defined.

Lemma follow_edge_holds (documentId a b : string) :
  Sdk.query_holds (follow_edge documentId a b) (Query_equal "followerId" a)
    = true ∧
  Sdk.query_holds (follow_edge documentId a b) (Query_equal "followingId" b)
    = true.
Proof. split; apply bool_decide_eq_true_2; reflexivity. Qed.

Lemma follow_edge_matches (documentId a b : string) :
  Sdk.matching (follow_queries a b) [follow_edge documentId a b]
  = [follow_edge documentId a b].
Proof.
  destruct (follow_edge_holds documentId a b) as [Ha Hb].
  unfold Sdk.matching, follow_queries. cbn [List.filter forallb].
  by rewrite Ha, Hb.
Qed.

(** X5.  [followUser] is idempotent for every pair: with the service
    answering normally, an existing edge of the ordered pair is returned and
    nothing is added, and a pair without an edge has exactly one after two
    calls in a row. *)
Theorem followUser_idempotent (followerId followingId : string) (w : World) :
  upcoming 0 w = Resolves →
  upcoming 1 w = Resolves →
  upcoming 2 w = Resolves →
  let qs := follow_queries followerId followingId in
  let once := final (followUser followerId followingId) w in
  let twice := final (followUser followerId followingId) once in
  match Sdk.matching qs (followers w) with
  | existing :: _ =>
      outcome (followUser followerId followingId) w = Returned existing ∧
      followers once = followers w ∧
      followers twice = followers w
  | [] =>
      let edge :=
        follow_edge (unique_id (next_id w)) followerId followingId in
      outcome (followUser followerId followingId) w = Returned edge ∧
      outcome (followUser followerId followingId) once = Returned edge ∧
      followers twice = followers w ++ [edge] ∧
      Sdk.matching qs (followers twice) = [edge]
  end.
Proof.
  intros H0 H1 H2. open_world w. unfold follow_queries.
  destruct (Sdk.matching _ fo) as [|existing others] eqn:Hm.
  - pose proof (follow_edge_matches (unique_id n) followerId followingId)
      as He.
    unfold follow_queries, follow_edge in He.
    destruct b as [|r0 [|r1 [|r2 b]]]; cbn in *; subst.
    all: run; rewrite Hm; cbn.
    all: repeat (progress (rewrite ?matching_app, ?Hm, ?He; cbn)).
    all: done.
  - destruct b as [|r0 [|r1 [|r2 b]]]; cbn in *; subst.
    all: run; rewrite Hm; cbn; rewrite ?Hm; cbn.
    all: done.
Qed.

Lemma followUser_idempotent_witness :
  let qs := follow_queries "a" "b" in
  let once := final (followUser "a" "b") empty_world in
  let twice := final (followUser "a" "b") once in
  outcome (followUser "a" "b") empty_world
    = Returned (follow_edge "id0" "a" "b") ∧
  outcome (followUser "a" "b") once = Returned (follow_edge "id0" "a" "b") ∧
  followers twice = [follow_edge "id0" "a" "b"] ∧
  Sdk.matching qs (followers twice) = [follow_edge "id0" "a" "b"].
Proof.
  exact (followUser_idempotent "a" "b" empty_world eq_refl eq_refl eq_refl).
Defined.

(** X6.  Following and then unfollowing is a round trip: for a pair without
    an edge, in a collection where the new id is not in use, the followers
    collection after [followUser] and [unfollowUser] is the one before. *)
Theorem followUser_unfollowUser_round_trip (followerId followingId : string)
    (w : World) :
  upcoming 0 w = Resolves →
  upcoming 1 w = Resolves →
  upcoming 2 w = Resolves →
  is_rejection (upcoming 3 w) = false →
  Sdk.matching (follow_queries followerId followingId) (followers w) = [] →
  ¬ In (unique_id (next_id w)) (doc_id <$> followers w) →
  let roundtrip :=
    followUser followerId followingId;; unfollowUser followerId followingId in
  outcome roundtrip w
    = Returned {| status := "Ok";
                  message := Some "Unfollow process completed." |} ∧
  followers (final roundtrip w) = followers w.
Proof.
  intros H0 H1 H2 H3 Hm Hfresh. open_world w. unfold follow_queries in Hm.
  pose proof (follow_edge_matches (unique_id n) followerId followingId) as He.
  pose proof (filter_delete_appended
                (follow_edge (unique_id n) followerId followingId) fo Hfresh)
    as Hdel.
  unfold follow_queries, follow_edge in He, Hdel. cbn in Hdel.
  destruct b as [|r0 [|r1 [|r2 [|r3 b]]]]; cbn in *; subst.
  all: try destruct r3; try done.
  all: run; rewrite Hm; cbn.
  all: repeat (progress (rewrite ?matching_app, ?Hm, ?He; cbn)).
  all: rewrite ?Hdel; done.
Qed.

Lemma followUser_unfollowUser_round_trip_witness :
  let roundtrip := followUser "a" "b";; unfollowUser "a" "b" in
  outcome roundtrip empty_world
    = Returned {| status := "Ok";
                  message := Some "Unfollow process completed." |} ∧
  followers (final roundtrip empty_world) = followers empty_world.
Proof.
  apply (followUser_unfollowUser_round_trip "a" "b" empty_world);
    try reflexivity.
  intros H. exact H.
Defined.

(** ** Follower counts *)

Lemma follow_edge_counted (documentId a b : string) :
  Sdk.matching [Query_equal "followingId" b] [follow_edge documentId a b]
    = [follow_edge documentId a b] ∧
  Sdk.matching [Query_equal "followerId" a] [follow_edge documentId a b]
    = [follow_edge documentId a b].
Proof.
  destruct (follow_edge_holds documentId a b) as [Ha Hb].
  unfold Sdk.matching. cbn [List.filter forallb]. by rewrite Ha, Hb.
Qed.

(** X7.  The counts follow the edges.  After a [followUser] that creates
    the edge, the followed user has one follower more and the follower
    follows one user more; after a [followUser] that finds the edge already
    there, both counts are what they were. *)
Theorem counts_after_followUser (followerId followingId : string)
    (w : World) :
  upcoming 0 w = Resolves →
  upcoming 1 w = Resolves →
  upcoming 2 w = Resolves →
  let fresh_edge :=
    match Sdk.matching (follow_queries followerId followingId) (followers w)
    with [] => 1 | _ :: _ => 0 end in
  outcome (followUser followerId followingId;; getFollowersCount followingId) w
    = Returned (followers_of followingId w + fresh_edge) ∧
  outcome (followUser followerId followingId;; getFollowingCount true followerId)
    w = Returned (following_of followerId w + fresh_edge).
Proof.
  intros H0 H1 H2. unfold followers_of, following_of.
  open_world w. unfold follow_queries.
  destruct (follow_edge_counted (unique_id n) followerId followingId)
    as [Hing Her].
  unfold follow_edge in Hing, Her.
  destruct (Sdk.matching [_; _] fo) as [|existing others] eqn:Hm.
  - destruct b as [|r0 [|r1 [|r2 b]]]; cbn in *; subst.
    all: run_more; rewrite Hm; cbn.
    all: rewrite !matching_app, Hing, Her, !length_app; cbn.
    all: done.
  - destruct b as [|r0 [|r1 [|r2 b]]]; cbn in *; subst.
    all: run_more; rewrite Hm; cbn.
    all: by rewrite !Nat.add_0_r.
Qed.

Lemma counts_after_followUser_witness :
  outcome (followUser "a" "b";; getFollowersCount "b") empty_world
    = Returned 1 ∧
  outcome (followUser "a" "b";; getFollowingCount true "a") empty_world
    = Returned 1.
Proof.
  exact (counts_after_followUser "a" "b" empty_world eq_refl eq_refl eq_refl).
Defined.

(** X8.  Both counts are the number of matching edges when the service
    answers normally, and 0 rather than an error when it resolves with
    nothing; [getFollowingCount] also answers 0, without calling the service,
    when the collection id is not configured.  A rejection is rethrown. *)
Theorem follow_counts_answers (userId : string) (w : World) :
  getFollowingCount false userId w
    = (Returned 0,
       push_event
         (Console error_level
            "followersCollectionId is not defined in appwriteConfig.") w) ∧
  match upcoming 0 w with
  | Resolves =>
      outcome (getFollowersCount userId) w = Returned (followers_of userId w) ∧
      outcome (getFollowingCount true userId) w
        = Returned (following_of userId w)
  | ResolvesFalsy =>
      outcome (getFollowersCount userId) w = Returned 0 ∧
      outcome (getFollowingCount true userId) w = Returned 0
  | Rejects e =>
      outcome (getFollowersCount userId) w = Thrown e ∧
      outcome (getFollowingCount true userId) w = Thrown e
  end.
Proof.
  split; [reflexivity|]. unfold followers_of, following_of. open_world w.
  destruct b as [|[| |e] b]; run_more; done.
Qed.

(** ** CREATE, continued *)

Lemma unique_id_cons (n : nat) :
  unique_id n = String "i" (String "d" (pretty n)).
Proof. reflexivity. Qed.

Lemma find_appended (d : Doc) (l : list Doc) :
  ¬ In (doc_id d) (doc_id <$> l) →
  List.find (Sdk.has_id (doc_id d)) (l ++ [d]) = Some d.
Proof.
  induction l as [|x l IH]; cbn.
  - intros _. unfold Sdk.has_id. by rewrite bool_decide_eq_true_2.
  - intros Hfresh. unfold Sdk.has_id at 1.
    rewrite bool_decide_eq_false_2 by (intros E; apply Hfresh; by left).
    apply IH. intros Hin. apply Hfresh. by right.
Qed.

(** X9.  A CREATE whose three calls go through returns the new record, and
    the two stores agree: the record is appended to the posts, its imageId is
    the id of the uploaded asset, that asset is in the bucket, its imageUrl is
    the preview address of the asset, and its tags are the parsed tag
    string. *)
Theorem createPost_success_binds_record_to_asset (post : INewPost.t)
    (w : World) (f : File) (fs : list File) :
  INewPost.file post = f :: fs →
  upcoming 0 w = Resolves →
  upcoming 1 w = Resolves →
  upcoming 2 w = Resolves →
  let fileId := unique_id (next_id w) in
  let w' := final (createPost post) w in
  ∃ d,
    outcome (createPost post) w = Returned d ∧
    doc_id d = unique_id (S (next_id w)) ∧
    posts w' = posts w ++ [d] ∧
    files w' = files w ∪ {[fileId]} ∧
    fileId ∈ files w' ∧
    doc_data d !! "imageId" = Some (VStr fileId) ∧
    doc_data d !! "imageUrl" = Some (VStr (Sdk.preview_href fileId)) ∧
    doc_data d !! "creator" = Some (VStr (INewPost.userId post)) ∧
    doc_data d !! "tags" = Some (VArr (parse_tags (INewPost.tags post))).
Proof.
  intros Hf H0 H1 H2. open_world w.
  destruct b as [|r0 [|r1 [|r2 b]]]; cbn in *; subst.
  all: run; rewrite Hf; cbn; truthy_preview (unique_id n).
  all: eexists; split; [reflexivity|].
  all: split; [reflexivity|]; split; [reflexivity|]; split; [reflexivity|].
  all: split; [apply elem_of_union_r; by apply elem_of_singleton|].
  all: destruct (INewPost.location post); repeat split; reflexivity.
Qed.

Lemma createPost_success_binds_record_to_asset_witness :
  let w' := final (createPost new_post) empty_world in
  ∃ d,
    outcome (createPost new_post) empty_world = Returned d ∧
    doc_id d = "id1" ∧
    posts w' = [d] ∧
    files w' = ∅ ∪ {["id0"]} ∧
    "id0" ∈ files w' ∧
    doc_data d !! "imageId" = Some (VStr "id0") ∧
    doc_data d !! "imageUrl" = Some (VStr (Sdk.preview_href "id0")) ∧
    doc_data d !! "creator" = Some (VStr "u1") ∧
    doc_data d !! "tags" = Some (VArr ["a"; "b"; "c"]).
Proof.
  exact (createPost_success_binds_record_to_asset new_post empty_world photo []
           eq_refl eq_refl eq_refl eq_refl).
Defined.

(** X10.  A CREATE whose upload fails changes nothing: whether the file list
    is empty (the SDK refuses the missing file), the upload is rejected or it
    resolves with nothing, [createPost] returns an error, bucket and posts are
    as before, and the upload is the only storage call made. *)
Theorem createPost_upload_failure_changes_nothing (post : INewPost.t)
    (w : World) :
  INewPost.file post = [] ∨ upcoming 0 w ≠ Resolves →
  let w' := final (createPost post) w in
  (∃ e, outcome (createPost post) w = Thrown e) ∧
  files w' = files w ∧
  posts w' = posts w ∧
  storage_calls (trace w')
    = storage_calls (trace w) ++ [Sdk (call_createFile (unique_id (next_id w)))].
Proof.
  intros Hfail. open_world w.
  destruct (INewPost.file post) as [|f fs] eqn:Hf.
  - run; rewrite Hf; cbn. repeat split; eauto; trace_calls.
  - destruct Hfail as [?|Hne]; [done|].
    destruct b as [|[| |e] b]; cbn in *; try done.
    all: run; rewrite Hf; cbn; repeat split; eauto; trace_calls.
Qed.

Lemma createPost_upload_failure_changes_nothing_witness :
  let w := with_script [Rejects outage] one_post in
  let w' := final (createPost new_post) w in
  (∃ e, outcome (createPost new_post) w = Thrown e) ∧
  files w' = files w ∧
  posts w' = posts w ∧
  storage_calls (trace w') = [Sdk (call_createFile "id0")].
Proof.
  apply (createPost_upload_failure_changes_nothing new_post
           (with_script [Rejects outage] one_post)).
  right. vm_compute. discriminate.
Defined.

(** X11.  What CREATE returns can be fetched: when the id given to the new
    record is not already in use, [getPostById] on the id of the returned
    record gives that record back. *)
Theorem createPost_getPostById_round_trip (post : INewPost.t) (w : World)
    (f : File) (fs : list File) :
  INewPost.file post = f :: fs →
  (∀ i, i < 4 → upcoming i w = Resolves) →
  ¬ In (unique_id (S (next_id w))) (doc_id <$> posts w) →
  ∃ d,
    outcome (createPost post) w = Returned d ∧
    outcome (created ← createPost post; getPostById (Some (doc_id created))) w
      = Returned (Some d).
Proof.
  intros Hf Hcalls Hfresh.
  pose proof (Hcalls 0 ltac:(lia)) as H0. pose proof (Hcalls 1 ltac:(lia)) as H1.
  pose proof (Hcalls 2 ltac:(lia)) as H2. pose proof (Hcalls 3 ltac:(lia)) as H3.
  clear Hcalls. open_world w.
  destruct b as [|r0 [|r1 [|r2 [|r3 b]]]]; cbn in *; subst.
  all: run_more; rewrite Hf; cbn; truthy_preview (unique_id n).
  all: eexists; split; [reflexivity|].
  all: rewrite (unique_id_cons (S n)); cbn.
  all: rewrite <- (unique_id_cons (S n)).
  all: match goal with
       | |- context [List.find _ (?l ++ [?d])] =>
           pose proof (find_appended d l Hfresh) as Hfind; cbn in Hfind;
           rewrite Hfind
       end.
  all: reflexivity.
Qed.

Lemma createPost_getPostById_round_trip_witness :
  ∃ d,
    outcome (createPost new_post) one_post = Returned d ∧
    outcome (created ← createPost new_post;
             getPostById (Some (doc_id created))) one_post
      = Returned (Some d).
Proof.
  apply (createPost_getPostById_round_trip new_post one_post photo []).
  - reflexivity.
  - intros i Hi. do 4 (destruct i as [|i]; [reflexivity|]). lia.
  - apply (bool_decide_unpack _). vm_compute. exact I.
Defined.

(** ** UPDATE, continued *)

(** X12.  When the document update is rejected after a new file has been
    uploaded, [updatePost] rethrows the rejection and makes no further
    storage call: the new asset stays in the bucket, the record is as
    before.  (Only a falsy resolution of the update leads to the deletion of
    the new asset.) *)
Theorem updatePost_update_rejection_keeps_new_asset (post : IUpdatePost.t)
    (w : World) (f : File) (fs : list File) (e : error) :
  IUpdatePost.file post = f :: fs →
  upcoming 0 w = Resolves →
  upcoming 1 w = Resolves →
  upcoming 2 w = Rejects e →
  let newId := unique_id (next_id w) in
  let w' := final (updatePost post) w in
  outcome (updatePost post) w = Thrown e ∧
  files w' = files w ∪ {[newId]} ∧
  posts w' = posts w ∧
  storage_calls (trace w')
    = storage_calls (trace w)
      ++ [Sdk (call_createFile newId); Sdk (call_getFilePreview newId)].
Proof.
  intros Hf H0 H1 H2. open_world w.
  destruct b as [|r0 [|r1 [|r2 b]]]; cbn in *; subst; try done.
  run; rewrite Hf; cbn. truthy_preview (unique_id n).
  repeat split; trace_calls.
Qed.

Lemma updatePost_update_rejection_keeps_new_asset_witness :
  let w := with_script [Resolves; Resolves; Rejects outage] one_post in
  let w' := final (updatePost with_new_file) w in
  outcome (updatePost with_new_file) w = Thrown outage ∧
  files w' = files w ∪ {["id0"]} ∧
  posts w' = posts w ∧
  storage_calls (trace w')
    = [Sdk (call_createFile "id0"); Sdk (call_getFilePreview "id0")].
Proof.
  exact (updatePost_update_rejection_keeps_new_asset with_new_file
           (with_script [Resolves; Resolves; Rejects outage] one_post)
           photo [] outage eq_refl eq_refl eq_refl eq_refl).
Defined.

(** X13.  When the preview of the new file cannot be computed, [updatePost]
    deletes the new asset only: the error is returned, the record is not
    written, and every asset that was in the bucket before and is not the
    new one, the old asset among them, is still there. *)
Theorem updatePost_preview_failure_spares_old_asset (post : IUpdatePost.t)
    (w : World) (f : File) (fs : list File) :
  IUpdatePost.file post = f :: fs →
  upcoming 0 w = Resolves →
  upcoming 1 w ≠ Resolves →
  is_rejection (upcoming 2 w) = false →
  let newId := unique_id (next_id w) in
  let w' := final (updatePost post) w in
  outcome (updatePost post) w
    = Thrown (JsError "Failed to generate new file preview URL.") ∧
  posts w' = posts w ∧
  (newId ∉ files w') ∧
  (∀ oldId, oldId ≠ newId → (oldId ∈ files w' ↔ oldId ∈ files w)).
Proof.
  intros Hf H0 H1 H2. open_world w.
  assert (∀ oldId : string, oldId ≠ unique_id n →
            (oldId ∈ (fl ∪ {[unique_id n]}) ∖ {[unique_id n]} ↔ oldId ∈ fl))
    as Hother.
  { intros oldId Hne.
    rewrite elem_of_difference, elem_of_union, elem_of_singleton. tauto. }
  assert (unique_id n ∉ (fl ∪ {[unique_id n]}) ∖ {[unique_id n]}) as Hnew.
  { rewrite elem_of_difference, elem_of_singleton. tauto. }
  destruct b as [|r0 [|r1 [|r2 b]]]; cbn in *; subst; try done.
  all: destruct r1; try done.
  all: try destruct r2; try done.
  all: run; rewrite Hf; cbn.
  all: split; [reflexivity|]; split; [reflexivity|]; split; assumption.
Qed.

Lemma updatePost_preview_failure_spares_old_asset_witness :
  let w := with_script [Resolves; Rejects outage; Resolves] one_post in
  let w' := final (updatePost with_new_file) w in
  outcome (updatePost with_new_file) w
    = Thrown (JsError "Failed to generate new file preview URL.") ∧
  posts w' = posts w ∧
  ("id0" ∉ files w') ∧
  (∀ oldId, oldId ≠ "id0" → (oldId ∈ files w' ↔ oldId ∈ files w)).
Proof.
  apply (updatePost_preview_failure_spares_old_asset with_new_file
           (with_script [Resolves; Rejects outage; Resolves] one_post)
           photo []).
  - reflexivity.
  - reflexivity.
  - vm_compute. discriminate.
  - reflexivity.
Defined.

(** X14.  An update with a new file whose calls all go through swaps the
    asset: the record now names the new asset and its preview address, the
    new asset is in the bucket and the old one, named by the request, is
    gone. *)
Theorem updatePost_success_swaps_asset (post : IUpdatePost.t) (w : World)
    (f : File) (fs : list File) (old : Doc) (oldId : string) :
  IUpdatePost.file post = f :: fs →
  upcoming 0 w = Resolves →
  upcoming 1 w = Resolves →
  upcoming 2 w = Resolves →
  is_rejection (upcoming 3 w) = false →
  List.find (Sdk.has_id (IUpdatePost.postId post)) (posts w) = Some old →
  IUpdatePost.imageId post = Some oldId →
  Js.truthy oldId = true →
  oldId ≠ unique_id (next_id w) →
  let newId := unique_id (next_id w) in
  let w' := final (updatePost post) w in
  ∃ d,
    outcome (updatePost post) w = Returned d ∧
    List.find (Sdk.has_id (IUpdatePost.postId post)) (posts w') = Some d ∧
    doc_data d !! "imageId" = Some (VStr newId) ∧
    doc_data d !! "imageUrl" = Some (VStr (Sdk.preview_href newId)) ∧
    files w' = (files w ∪ {[newId]}) ∖ {[oldId]} ∧
    (newId ∈ files w') ∧
    (oldId ∉ files w').
Proof.
  intros Hf H0 H1 H2 H3 Hold Hid Htruthy Hne. open_world w.
  assert (unique_id n ∈ (fl ∪ {[unique_id n]}) ∖ {[oldId]}) as Hnew.
  { rewrite elem_of_difference, elem_of_union, !elem_of_singleton.
    split; [by right | congruence]. }
  assert (oldId ∉ (fl ∪ {[unique_id n]}) ∖ {[oldId]}) as Hgone.
  { rewrite elem_of_difference, elem_of_singleton. tauto. }
  destruct oldId as [|c0 s0]; [done|].
  destruct b as [|r0 [|r1 [|r2 [|r3 b]]]]; cbn in *; subst.
  all: try destruct r3; try done.
  all: run; rewrite Hf; cbn; truthy_preview (unique_id n).
  all: rewrite Hold; cbn; rewrite Hid; cbn.
  all: rewrite (bool_decide_eq_false_2 _ Hne); cbn.
  all: eexists; split; [reflexivity|].
  all: split; [by rewrite find_patch_id, Hold|].
  all: split; [by apply patch_lookup|]; split; [by apply patch_lookup|].
  all: split; [reflexivity|]; split; assumption.
Qed.

Lemma updatePost_success_swaps_asset_witness :
  let w' := final (updatePost with_new_file) one_post in
  ∃ d,
    outcome (updatePost with_new_file) one_post = Returned d ∧
    List.find (Sdk.has_id "p1") (posts w') = Some d ∧
    doc_data d !! "imageId" = Some (VStr "id0") ∧
    doc_data d !! "imageUrl" = Some (VStr (Sdk.preview_href "id0")) ∧
    files w' = (files one_post ∪ {["id0"]}) ∖ {["old"]} ∧
    ("id0" ∈ files w') ∧
    ("old" ∉ files w').
Proof.
  apply (updatePost_success_swaps_asset with_new_file one_post photo []
           stored_post "old"); try reflexivity.
  intros E. vm_compute in E. discriminate E.
Defined.

(** X15.  An update without a file does not keep the record's own asset
    reference or tags: it writes the imageId and imageUrl of the request,
    the empty string for each one the request leaves out, and the parsed tag
    string, the empty list when the request has no tags. *)
Theorem updatePost_without_file_writes_request_fields (post : IUpdatePost.t)
    (w : World) (old : Doc) :
  IUpdatePost.file post = [] →
  upcoming 0 w = Resolves →
  List.find (Sdk.has_id (IUpdatePost.postId post)) (posts w) = Some old →
  ∃ d,
    outcome (updatePost post) w = Returned d ∧
    List.find (Sdk.has_id (IUpdatePost.postId post))
      (posts (final (updatePost post) w)) = Some d ∧
    doc_data d !! "imageId"
      = Some (VStr (Js.or_else (IUpdatePost.imageId post) EmptyString)) ∧
    doc_data d !! "imageUrl"
      = Some (VStr (Js.or_else (IUpdatePost.imageUrl post) EmptyString)) ∧
    doc_data d !! "tags" = Some (VArr (parse_tags (IUpdatePost.tags post))) ∧
    (IUpdatePost.imageId post = None →
       doc_data d !! "imageId" = Some (VStr EmptyString)) ∧
    (IUpdatePost.tags post = None → doc_data d !! "tags" = Some (VArr [])).
Proof.
  intros Hf H0 Hold. open_world w.
  destruct b as [|r0 b]; cbn in *; subst.
  all: run; rewrite Hf; cbn; rewrite Hold; cbn.
  all: destruct (IUpdatePost.imageId post) as [[|c0 s0]|] eqn:Hid; cbn.
  all: eexists; split; [reflexivity|].
  all: split; [by rewrite find_patch_id, Hold|].
  all: split; [by apply patch_lookup|]; split; [by apply patch_lookup|].
  all: split; [by apply patch_lookup|]; split; [intros; try done|].
  all: try (by apply patch_lookup).
  all: intros Ht; apply patch_lookup; unfold post_update_data; by rewrite Ht.
Qed.

Lemma updatePost_without_file_writes_request_fields_witness :
  doc_data stored_post !! "imageId" = Some (VStr "old") ∧
  ∃ d,
    outcome (updatePost tags_only) one_post = Returned d ∧
    List.find (Sdk.has_id "p1") (posts (final (updatePost tags_only) one_post))
      = Some d ∧
    doc_data d !! "imageId" = Some (VStr EmptyString) ∧
    doc_data d !! "imageUrl" = Some (VStr EmptyString) ∧
    doc_data d !! "tags" = Some (VArr []) ∧
    (IUpdatePost.imageId tags_only = None →
       doc_data d !! "imageId" = Some (VStr EmptyString)) ∧
    (IUpdatePost.tags tags_only = None → doc_data d !! "tags" = Some (VArr [])).
Proof.
  split; [reflexivity|].
  exact (updatePost_without_file_writes_request_fields tags_only one_post
           stored_post eq_refl eq_refl eq_refl).
Defined.

(** ** Profile update *)

(** X16.  A profile update without a file touches no asset and, unlike
    [updatePost], keeps what it is not given: the stored imageId and imageUrl
    stay when the request leaves them out.  The name is overwritten, and an
    omitted bio is stored as the empty string. *)
Theorem updateUser_without_file_keeps_avatar (user : IUpdateUser.t)
    (w : World) (old : Doc) :
  IUpdateUser.file user = [] →
  upcoming 0 w = Resolves →
  List.find (Sdk.has_id (IUpdateUser.userId user)) (users w) = Some old →
  let w' := final (updateUser user) w in
  ∃ d,
    outcome (updateUser user) w = Returned d ∧
    List.find (Sdk.has_id (IUpdateUser.userId user)) (users w') = Some d ∧
    files w' = files w ∧
    storage_calls (trace w') = storage_calls (trace w) ∧
    doc_data d !! "name" = Some (VStr (IUpdateUser.name user)) ∧
    (IUpdateUser.bio user = None →
       doc_data d !! "bio" = Some (VStr EmptyString)) ∧
    (IUpdateUser.imageId user = None →
       doc_data d !! "imageId" = doc_data old !! "imageId") ∧
    (IUpdateUser.imageUrl user = None →
       doc_data d !! "imageUrl" = doc_data old !! "imageUrl").
Proof.
  intros Hf H0 Hold. open_world w.
  assert (∀ image,
    doc_data (Sdk.patch (user_update_data user image) old) !! "name"
      = Some (VStr (IUpdateUser.name user))) as Hname.
  { intros [[u|] [i|]]; by apply patch_lookup. }
  assert (∀ image, IUpdateUser.bio user = None →
    doc_data (Sdk.patch (user_update_data user image) old) !! "bio"
      = Some (VStr EmptyString)) as Hbio.
  { intros [[u|] [i|]] Hb; apply patch_lookup; unfold user_update_data;
      by rewrite Hb. }
  assert (∀ url,
    doc_data (Sdk.patch (user_update_data user (url, None)) old) !! "imageId"
      = doc_data old !! "imageId") as Hkeep_id.
  { intros url. unfold Sdk.patch. cbn [doc_data].
    apply lookup_union_r. by destruct url. }
  assert (∀ i,
    doc_data (Sdk.patch (user_update_data user (None, i)) old) !! "imageUrl"
      = doc_data old !! "imageUrl") as Hkeep_url.
  { intros i. unfold Sdk.patch. cbn [doc_data].
    apply lookup_union_r. by destruct i. }
  destruct b as [|r0 b]; cbn in *; subst.
  all: run_more; rewrite Hf; cbn; rewrite Hold; cbn.
  all: destruct (IUpdateUser.imageId user) as [[|c0 s0]|] eqn:Hid; cbn.
  all: eexists; split; [reflexivity|].
  all: split; [by rewrite find_patch_id, Hold|].
  all: split; [reflexivity|]; split; [trace_calls|].
  all: split; [apply Hname|]; split; [apply Hbio|].
  all: split; [intros; try done; apply Hkeep_id|].
  all: intros Hu; rewrite Hu; apply Hkeep_url.
Qed.

Lemma updateUser_without_file_keeps_avatar_witness :
  let w' := final (updateUser rename_only) one_user in
  ∃ d,
    outcome (updateUser rename_only) one_user = Returned d ∧
    List.find (Sdk.has_id "usr1") (users w') = Some d ∧
    files w' = files one_user ∧
    storage_calls (trace w') = storage_calls (trace one_user) ∧
    doc_data d !! "name" = Some (VStr "Alice B") ∧
    (IUpdateUser.bio rename_only = None →
       doc_data d !! "bio" = Some (VStr EmptyString)) ∧
    (IUpdateUser.imageId rename_only = None →
       doc_data d !! "imageId" = doc_data stored_user !! "imageId") ∧
    (IUpdateUser.imageUrl rename_only = None →
       doc_data d !! "imageUrl" = doc_data stored_user !! "imageUrl").
Proof.
  exact (updateUser_without_file_keeps_avatar rename_only one_user stored_user
           eq_refl eq_refl eq_refl).
Defined.

(** X17.  A profile update with a new file whose upload, preview and
    document update go through returns the updated user whatever the storage
    service answers to the deletion of the old avatar; the user document then
    names the new asset, which is in the bucket. *)
Theorem updateUser_old_avatar_best_effort (user : IUpdateUser.t) (w : World)
    (f : File) (fs : list File) (old : Doc) :
  IUpdateUser.file user = f :: fs →
  upcoming 0 w = Resolves →
  upcoming 1 w = Resolves →
  upcoming 2 w = Resolves →
  List.find (Sdk.has_id (IUpdateUser.userId user)) (users w) = Some old →
  let newId := unique_id (next_id w) in
  let w' := final (updateUser user) w in
  outcome (updateUser user) w
    = Returned
        (Sdk.patch
           (user_update_data user (Some (Sdk.preview_href newId), Some newId))
           old) ∧
  (newId ∈ files w') ∧
  (is_rejection (upcoming 3 w) = true → ∀ x, x ∈ files w → x ∈ files w').
Proof.
  intros Hf H0 H1 H2 Hold. open_world w.
  destruct b as [|r0 [|r1 [|r2 b]]]; cbn in *; subst.
  all: run_more; rewrite Hf; cbn; truthy_preview (unique_id n).
  all: rewrite Hold; cbn.
  all: destruct (IUpdateUser.imageId user) as [[|c0 s0]|]; cbn.
  all: try case_bool_decide; cbn.
  all: try (destruct b as [|[| |e] b]; cbn).
  all: split; [reflexivity|].
  all: split;
    [try (apply elem_of_union_r; by apply elem_of_singleton)
    |try (intros; by apply elem_of_union_l); try done].
  all: rewrite elem_of_difference, elem_of_union, !elem_of_singleton.
  all: split; [by right|]. 
  all: intros E; congruence.
Qed.

Lemma updateUser_old_avatar_best_effort_witness :
  let w := with_script [Resolves; Resolves; Resolves; Rejects outage] one_user in
  let w' := final (updateUser new_avatar) w in
  outcome (updateUser new_avatar) w
    = Returned
        (Sdk.patch
           (user_update_data new_avatar
              (Some (Sdk.preview_href "id0"), Some "id0"))
           stored_user) ∧
  ("id0" ∈ files w') ∧
  (is_rejection (upcoming 3 w) = true → ∀ x, x ∈ files w → x ∈ files w').
Proof.
  exact (updateUser_old_avatar_best_effort new_avatar
           (with_script [Resolves; Resolves; Resolves; Rejects outage] one_user)
           photo [] stored_user eq_refl eq_refl eq_refl eq_refl eq_refl).
Defined.

(** ** The signed-in user *)

(** X18.  [getCurrentUser] never throws and never changes a store: whatever
    the account service and the database answer, and with or without a
    session, it returns a user document or null. *)
Theorem getCurrentUser_never_throws (session : option Account) (w : World) :
  let w' := final (getCurrentUser session) w in
  ∃ r, outcome (getCurrentUser session) w = Returned r ∧
       users w' = users w ∧ files w' = files w ∧ posts w' = posts w ∧
       saves w' = saves w ∧ followers w' = followers w.
Proof.
  open_world w.
  destruct b as [|r0 [|r1 b]]; try destruct r0; try destruct r1.
  all: destruct session as [a|]; run_more.
  all: try destruct (Sdk.matching _ us); cbn.
  all: eexists; repeat split; reflexivity.
Qed.

Lemma user_document_accountId (user : NewUser.t) :
  user_document user !! "accountId" = Some (VStr (NewUser.accountId user)).
Proof. unfold user_document. by destruct (NewUser.username user). Qed.

(** X19.  A user document written by [saveUserToDB] is the one
    [getCurrentUser] finds for a session of that account, provided no earlier
    user document carries the account id. *)
Theorem saveUserToDB_getCurrentUser_round_trip (user : NewUser.t)
    (account : Account) (w : World) :
  upcoming 0 w = Resolves →
  upcoming 1 w = Resolves →
  upcoming 2 w = Resolves →
  account_id account = NewUser.accountId user →
  Sdk.matching [Query_equal "accountId" (NewUser.accountId user)] (users w)
    = [] →
  let saved :=
    {| doc_id := unique_id (next_id w); doc_data := user_document user |} in
  outcome (saveUserToDB user) w = Returned (Some saved) ∧
  outcome (saveUserToDB user;; getCurrentUser (Some account)) w
    = Returned (Some saved).
Proof.
  intros H0 H1 H2 Hacc Hm. open_world w.
  assert (Sdk.matching [Query_equal "accountId" (NewUser.accountId user)]
            [{| doc_id := unique_id n; doc_data := user_document user |}]
          = [{| doc_id := unique_id n; doc_data := user_document user |}])
    as Hone.
  { unfold Sdk.matching, Sdk.query_holds. cbn.
    by rewrite user_document_accountId, bool_decide_eq_true_2. }
  destruct b as [|r0 [|r1 [|r2 b]]]; cbn in *; subst.
  all: run_more; rewrite Hacc, matching_app, Hm, Hone; done.
Qed.

Lemma saveUserToDB_getCurrentUser_round_trip_witness :
  let saved := {| doc_id := "id0"; doc_data := user_document alice_user |} in
  outcome (saveUserToDB alice_user) empty_world = Returned (Some saved) ∧
  outcome (saveUserToDB alice_user;; getCurrentUser (Some alice)) empty_world
    = Returned (Some saved).
Proof.
  exact (saveUserToDB_getCurrentUser_round_trip alice_user alice empty_world
           eq_refl eq_refl eq_refl eq_refl eq_refl).
Defined.

(** ** Asset helpers *)

(** X20.  [getFilePreview] never throws and changes no store: it answers
    with the preview address exactly when the storage service resolves
    normally, and with null otherwise. *)
Theorem getFilePreview_never_throws (fileId : string) (w : World) :
  let w' := final (getFilePreview fileId) w in
  outcome (getFilePreview fileId) w
    = Returned (match upcoming 0 w with
                | Resolves => Some (Sdk.preview_href fileId)
                | _ => None
                end) ∧
  files w' = files w ∧ posts w' = posts w ∧
  saves w' = saves w ∧ followers w' = followers w ∧ users w' = users w.
Proof.
  open_world w. destruct b as [|[| |e] b]; run; done.
Qed.

(** ** Likes, continued *)

Lemma includes_after_toggle (likes : list string) (userId : string) :
  Js.includes (updatedLikes likes userId) userId
  = negb (Js.includes likes userId).
Proof.
  pose proof (updatedLikes_member likes userId userId) as Hm.
  destruct (Js.includes likes userId) eqn:Hin; cbn.
  - apply bool_decide_eq_false. rewrite list_elem_of_In, Hm. tauto.
  - apply bool_decide_eq_true. rewrite list_elem_of_In, Hm. tauto.
Qed.

(** X21.  One click flips the like state of the clicking user and of nobody
    else: [checkIsLiked] on the toggled list is the negation for that user
    and unchanged for every other user. *)
Theorem toggle_flips_checkIsLiked (likes : list string) (userId : string) :
  checkIsLiked (updatedLikes likes userId) userId
    = negb (checkIsLiked likes userId) ∧
  ∀ other, other ≠ userId →
    checkIsLiked (updatedLikes likes userId) other = checkIsLiked likes other.
Proof.
  unfold checkIsLiked. split; [apply includes_after_toggle|].
  intros other Hne.
  pose proof (updatedLikes_member likes userId other) as Hm.
  apply bool_decide_ext. rewrite !list_elem_of_In, Hm.
  destruct (Js.includes likes userId); tauto.
Qed.

Lemma filter_not_member (userId : string) (likes : list string) :
  ¬ In userId likes →
  List.filter (λ id, negb (bool_decide (id = userId))) likes = likes.
Proof.
  induction likes as [|x l IH]; cbn; [done|]. intros Hnot.
  rewrite bool_decide_eq_false_2 by (intros ->; apply Hnot; by left).
  cbn. rewrite IH; [done|]. intros Hin. apply Hnot. by right.
Qed.

(** X22.  Two clicks by the same user restore the membership of the likes
    list; when the user had not liked the post they restore the list itself. *)
Theorem toggle_twice_restores (likes : list string) (userId : string) :
  (∀ x, In x (updatedLikes (updatedLikes likes userId) userId) ↔ In x likes) ∧
  (¬ In userId likes →
   updatedLikes (updatedLikes likes userId) userId = likes).
Proof.
  split.
  - intros x.
    pose proof (updatedLikes_member (updatedLikes likes userId) userId x) as H2.
    pose proof (updatedLikes_member likes userId x) as H1.
    rewrite includes_after_toggle in H2.
    destruct (Js.includes likes userId) eqn:Hin; cbn in H2; rewrite H2, H1.
    + apply bool_decide_eq_true in Hin. rewrite list_elem_of_In in Hin.
      destruct (decide (x = userId)) as [->|Hne]; tauto.
    + apply bool_decide_eq_false in Hin. rewrite list_elem_of_In in Hin.
      split; [intros [[H|H] Hne]; [done|congruence] |].
      intros Hx. split; [by left|]. intros ->. done.
  - intros Hnot. unfold updatedLikes at 2. unfold Js.includes.
    rewrite bool_decide_eq_false_2 by (by rewrite list_elem_of_In).
    unfold updatedLikes, Js.includes.
    rewrite bool_decide_eq_true_2
      by (rewrite list_elem_of_In, List.in_app_iff; right; by left).
    rewrite List.filter_app, (filter_not_member _ _ Hnot). cbn.
    rewrite bool_decide_eq_true_2 by done. cbn. apply app_nil_r.
Qed.

Lemma toggle_twice_restores_witness :
  updatedLikes (updatedLikes ["u2"] "u1") "u1" = ["u2"].
Proof.
  apply (proj2 (toggle_twice_restores ["u2"] "u1")).
  intros [H|[]]. discriminate H.
Defined.

(** X23.  The like counter moves by one: on a list without repetitions the
    toggled list is one shorter when the user was in it and one longer when
    not. *)
Theorem toggle_changes_count_by_one (likes : list string) (userId : string) :
  NoDup likes →
  length (updatedLikes likes userId)
    = if checkIsLiked likes userId then length likes - 1 else length likes + 1.
Proof.
  intros Hnd. unfold checkIsLiked, updatedLikes.
  destruct (Js.includes likes userId) eqn:Hin.
  - apply bool_decide_eq_true in Hin.
    induction Hnd as [|x l Hx Hnd IH]; [by apply elem_of_nil in Hin|].
    cbn [List.filter]. destruct (decide (x = userId)) as [->|Hne].
    + rewrite bool_decide_eq_true_2 by done. cbn.
      rewrite filter_not_member by (by rewrite <- list_elem_of_In). lia.
    + rewrite bool_decide_eq_false_2 by done. cbn.
      apply elem_of_cons in Hin as [->|Hin]; [done|].
      rewrite (IH Hin). destruct l; [by apply elem_of_nil in Hin|cbn; lia].
  - by rewrite length_app.
Qed.

Lemma toggle_changes_count_by_one_witness :
  length (updatedLikes ["u1"; "u2"] "u1") = 1.
Proof.
  apply (toggle_changes_count_by_one ["u1"; "u2"] "u1").
  apply (bool_decide_unpack _). vm_compute. exact I.
Defined.

(** ** Tag parsing, continued *)

Lemma replace_spaces_idemp (s : string) :
  Js.replace_spaces (Js.replace_spaces s) = Js.replace_spaces s.
Proof.
  induction s as [|c r IH]; cbn; [reflexivity|].
  destruct (Ascii.eqb c " "%char) eqn:Ec; [exact IH|].
  cbn. by rewrite Ec, IH.
Qed.

Lemma commas_replace_spaces (s : string) :
  commas (Js.replace_spaces s) = commas s.
Proof.
  unfold commas. induction s as [|c r IH]; cbn; [reflexivity|].
  destruct (Ascii.eqb c " "%char) eqn:Ec.
  - apply Ascii.eqb_eq in Ec as ->. cbn. exact IH.
  - cbn. destruct (Ascii.eqb c ","%char); cbn; by rewrite IH.
Qed.

Lemma length_split_comma (s : string) :
  length (Js.split_comma s) = S (commas s).
Proof.
  unfold commas. induction s as [|c r IH]; cbn; [reflexivity|].
  pose proof (split_comma_nonempty r) as Hne.
  destruct (Ascii.eqb c ","%char); cbn; [by rewrite IH|].
  destruct (Js.split_comma r) as [|p ps]; [done|]. exact IH.
Qed.

(** X24.  A supplied tag string always yields one tag more than it has
    commas; so a trailing, leading or doubled comma yields an empty tag. *)
Theorem parse_tags_counts_commas (s : string) :
  length (parse_tags (Some s)) = S (commas s).
Proof.
  unfold parse_tags. by rewrite length_split_comma, commas_replace_spaces.
Qed.

(** X25.  Parsing survives the round trip through the edit form: joining
    the parsed tags with commas and parsing again gives the same tags. *)
Theorem parse_tags_join_round_trip (s : string) :
  parse_tags (Some (Js.join_comma (parse_tags (Some s)))) = parse_tags (Some s).
Proof.
  unfold parse_tags. by rewrite join_split_comma, replace_spaces_idemp.
Qed.

(** ** The swallowing variant *)

(** X26.  The swallowing [createPost] never throws: every failure ends in a
    console line and the result [undefined].  When the record cannot be
    persisted because [createDocument] rejects, that is all that happens:
    the caller gets [undefined], the uploaded asset stays in the bucket and
    no record exists. *)
Theorem legacy_createPost_swallows_failures (post : INewPost.t) (w : World) :
  (∃ r, outcome (Legacy.createPost post) w = Returned r) ∧
  ∀ f fs e,
    INewPost.file post = f :: fs →
    upcoming 0 w = Resolves →
    upcoming 1 w = Resolves →
    upcoming 2 w = Rejects e →
    let w' := final (Legacy.createPost post) w in
    outcome (Legacy.createPost post) w = Returned None ∧
    files w' = files w ∪ {[unique_id (next_id w)]} ∧
    posts w' = posts w.
Proof.
  split.
  - open_world w.
    destruct (INewPost.file post) as [|f fs] eqn:Hf.
    + run_more; rewrite Hf; cbn. eauto.
    + destruct b as [|r0 [|r1 [|r2 [|r3 b]]]].
      all: try destruct r0; try destruct r1; try destruct r2; try destruct r3.
      all: run_more; rewrite Hf; cbn.
      all: try truthy_preview (unique_id n).
      all: eauto.
  - intros f fs e Hf H0 H1 H2. open_world w.
    destruct b as [|r0 [|r1 [|r2 b]]]; cbn in *; subst; try done.
    run_more; rewrite Hf; cbn. truthy_preview (unique_id n). done.
Qed.

Lemma legacy_createPost_swallows_failures_witness :
  let w := with_script [Resolves; Resolves; Rejects outage] empty_world in
  let w' := final (Legacy.createPost new_post) w in
  outcome (Legacy.createPost new_post) w = Returned None ∧
  files w' = files w ∪ {["id0"]} ∧
  posts w' = posts w.
Proof.
  exact (proj2 (legacy_createPost_swallows_failures new_post
                  (with_script [Resolves; Resolves; Rejects outage] empty_world))
           photo [] outage eq_refl eq_refl eq_refl eq_refl).
Defined.

(** X27.  The swallowing [savePost] does not look for an existing edge: two
    calls in a row add two save records for the pair. *)
Theorem legacy_savePost_duplicates (userId postId : string) (w : World) :
  upcoming 0 w = Resolves →
  upcoming 1 w = Resolves →
  let twice :=
    final (Legacy.savePost userId postId;; Legacy.savePost userId postId) w in
  let first := save_edge (unique_id (next_id w)) userId postId in
  let second := save_edge (unique_id (S (next_id w))) userId postId in
  saves twice = saves w ++ [first; second] ∧
  Sdk.matching (save_queries userId postId) (saves twice)
    = Sdk.matching (save_queries userId postId) (saves w) ++ [first; second].
Proof.
  intros H0 H1. open_world w.
  pose proof (save_edge_matches (unique_id n) userId postId) as He1.
  pose proof (save_edge_matches (unique_id (S n)) userId postId) as He2.
  destruct b as [|r0 [|r1 b]]; cbn in *; subst.
  all: unfold save_edge in *; run_more.
  all: split; [by rewrite <- app_assoc|].
  all: by rewrite !matching_app, He1, He2, <- app_assoc.
Qed.

Lemma legacy_savePost_duplicates_witness :
  let twice :=
    final (Legacy.savePost "u1" "p1";; Legacy.savePost "u1" "p1") empty_world in
  saves twice = [save_edge "id0" "u1" "p1"; save_edge "id1" "u1" "p1"] ∧
  Sdk.matching (save_queries "u1" "p1") (saves twice)
    = [save_edge "id0" "u1" "p1"; save_edge "id1" "u1" "p1"].
Proof.
  exact (legacy_savePost_duplicates "u1" "p1" empty_world eq_refl eq_refl).
Defined.



Lemma unique_id_inj (n m : nat) : unique_id n = unique_id m → n = m.
Proof.
  rewrite !unique_id_cons. intros E. injection E as E.
  by apply (inj pretty) in E.
Qed.

Lemma filter_keep_one (documentId : string) (d : Doc) :
  doc_id d ≠ documentId →
  List.filter (λ x, negb (Sdk.has_id documentId x)) [d] = [d].
Proof.
  intros Hne. cbn. unfold Sdk.has_id. by rewrite bool_decide_eq_false_2.
Qed.

(** X29.  Duplicate follow edges take one unfollow each.  Two calls of the
    swallowing [followUser], which does not look for an existing edge, leave
    two edges for the pair; one [unfollowUser] removes the older one only,
    and a second one restores the followers collection. *)
Theorem duplicate_follows_need_two_unfollows (followerId followingId : string)
    (w : World) :
  (∀ i, i < 6 → upcoming i w = Resolves) →
  Sdk.matching (follow_queries followerId followingId) (followers w) = [] →
  ¬ In (unique_id (next_id w)) (doc_id <$> followers w) →
  ¬ In (unique_id (S (next_id w))) (doc_id <$> followers w) →
  let qs := follow_queries followerId followingId in
  let older := follow_edge (unique_id (next_id w)) followerId followingId in
  let newer := follow_edge (unique_id (S (next_id w))) followerId followingId in
  let doubled :=
    Legacy.followUser followerId followingId;;
    Legacy.followUser followerId followingId in
  let once := doubled;; unfollowUser followerId followingId in
  let twice := once;; unfollowUser followerId followingId in
  Sdk.matching qs (followers (final doubled w)) = [older; newer] ∧
  Sdk.matching qs (followers (final once w)) = [newer] ∧
  followers (final twice w) = followers w.
Proof.
  intros Hcalls Hm Hf1 Hf2.
  pose proof (Hcalls 0 ltac:(lia)) as H0. pose proof (Hcalls 1 ltac:(lia)) as H1.
  pose proof (Hcalls 2 ltac:(lia)) as H2. pose proof (Hcalls 3 ltac:(lia)) as H3.
  pose proof (Hcalls 4 ltac:(lia)) as H4. pose proof (Hcalls 5 ltac:(lia)) as H5.
  clear Hcalls. open_world w. unfold follow_queries in *.
  pose proof (follow_edge_matches (unique_id n) followerId followingId) as He1.
  pose proof (follow_edge_matches (unique_id (S n)) followerId followingId)
    as He2.
  pose proof (filter_other_ids _ _ Hf1) as Hk1.
  pose proof (filter_other_ids _ _ Hf2) as Hk1'.
  assert (List.filter (λ x, negb (Sdk.has_id (unique_id (S n)) x))
            [follow_edge (unique_id (S n)) followerId followingId] = [])
    as Hd2.
  { cbn. unfold Sdk.has_id. by rewrite bool_decide_eq_true_2. }
  assert (List.filter (λ x, negb (Sdk.has_id (unique_id n) x))
            [follow_edge (unique_id (S n)) followerId followingId]
          = [follow_edge (unique_id (S n)) followerId followingId]) as Hk2.
  { apply filter_keep_one. cbn. intros E. apply unique_id_inj in E. lia. }
  assert (List.filter (λ x, negb (Sdk.has_id (unique_id n) x))
            [follow_edge (unique_id n) followerId followingId] = []) as Hd1.
  { cbn. unfold Sdk.has_id. by rewrite bool_decide_eq_true_2. }
  unfold follow_queries, follow_edge in *.
  destruct b as [|r0 [|r1 [|r2 [|r3 [|r4 [|r5 b]]]]]]; cbn in *; subst.
  all: run_more.
  all: repeat (progress
         (rewrite ?matching_app, ?List.filter_app, ?Hm, ?He1, ?He2, ?Hk1, ?Hk1',
            ?Hk2, ?Hd1, ?Hd2, ?app_nil_r; cbn)).
  all: done.
Qed.

Lemma duplicate_follows_need_two_unfollows_witness :
  let qs := follow_queries "a" "b" in
  let doubled := Legacy.followUser "a" "b";; Legacy.followUser "a" "b" in
  let once := doubled;; unfollowUser "a" "b" in
  let twice := once;; unfollowUser "a" "b" in
  Sdk.matching qs (followers (final doubled empty_world))
    = [follow_edge "id0" "a" "b"; follow_edge "id1" "a" "b"] ∧
  Sdk.matching qs (followers (final once empty_world))
    = [follow_edge "id1" "a" "b"] ∧
  followers (final twice empty_world) = followers empty_world.
Proof.
  apply (duplicate_follows_need_two_unfollows "a" "b" empty_world).
  - intros i Hi. do 6 (destruct i as [|i]; [reflexivity|]). lia.
  - reflexivity.
  - intros H. exact H.
  - intros H. exact H.
Defined.

(** X30.  The swallowing [unfollowUser] never throws, and on the followers
    collection it does exactly what the rethrowing one does: for every world
    and every script the two leave the same followers behind. *)
Theorem legacy_unfollowUser_same_store (followerId followingId : string)
    (w : World) :
  outcome (Legacy.unfollowUser followerId followingId) w = Returned tt ∧
  followers (final (Legacy.unfollowUser followerId followingId) w)
    = followers (final (unfollowUser followerId followingId) w).
Proof.
  open_world w.
  destruct b as [|r0 [|r1 b]]; try destruct r0; try destruct r1.
  all: run_more.
  all: try (destruct (Sdk.matching _ fo) as [|d ds]; cbn).
  all: done.
Qed.
